(** * DeepLabCut/convert.py: classifier, converter and tree walker

    A shallow embedding of [DeepLabCut/convert.py].  The module leans on
    three collaborators that are not part of the repository: [pathlib]
    (pure path arithmetic and a handful of file-system probes), [pandas]
    ([read_hdf], [DataFrame.to_csv]) and the interpreter's output streams.
    Path arithmetic is embedded from CPython's [pathlib] (POSIX flavour);
    the file system is a finite map from absolute paths to nodes; the HDF5
    parser and the CSV renderer of pandas stay abstract (class [Externals]).
    Every call the module makes to a collaborator is appended to a trace, so
    that "nothing was read" and "nothing was written" are statements about
    that trace and about the node map. *)

From Stdlib Require Import ZArith Ascii String.
From stdpp Require Import gmap strings list fin_maps.

Local Open Scope string_scope.
Local Open Scope Z_scope.

(* ===================================================================== *)
(** ** Python string primitives used by the module *)
(* ===================================================================== *)

Module Str.

(** [len(s)] *)
Definition len (s : string) : Z := Z.of_nat (String.length s).

(** [s.rfind(c)] for a one-character needle: the highest index at which
    [c] occurs, [-1] when it does not occur. *)
Fixpoint rfind (c : ascii) (s : string) : Z :=
  match s with
  | EmptyString => -1
  | String a s' =>
      let r := rfind c s' in
      if 0 <=? r then r + 1
      else if Ascii.eqb a c then 0 else -1
  end.

(** [s[:n]] and [s[n:]] for [0 <= n]. *)
Fixpoint take (n : nat) (s : string) : string :=
  match n, s with
  | S n', String a s' => String a (take n' s')
  | _, _ => EmptyString
  end.

Fixpoint drop (n : nat) (s : string) : string :=
  match n, s with
  | S n', String _ s' => drop n' s'
  | _, _ => s
  end.

(** [s.startswith(p)] *)
Fixpoint startswith (p s : string) : bool :=
  match p, s with
  | EmptyString, _ => true
  | String a p', String b s' => Ascii.eqb a b && startswith p' s'
  | String _ _, EmptyString => false
  end.

(** [sub in s]: [sub] occurs in [s] as a contiguous substring. *)
Fixpoint contains (sub s : string) : bool :=
  startswith sub s ||
  match s with
  | EmptyString => false
  | String _ s' => contains sub s'
  end.

(** [c in s] for a single character. *)
Fixpoint has_char (c : ascii) (s : string) : bool :=
  match s with
  | EmptyString => false
  | String a s' => Ascii.eqb a c || has_char c s'
  end.

(** [s.split(c)]: the maximal pieces between occurrences of [c]. *)
Fixpoint split (c : ascii) (s : string) : list string :=
  match s with
  | EmptyString => [EmptyString]
  | String a s' =>
      if Ascii.eqb a c then EmptyString :: split c s'
      else match split c s' with
           | x :: xs => String a x :: xs
           | [] => [String a EmptyString]
           end
  end.

(** [s.lstrip(c)] *)
Fixpoint lstrip (c : ascii) (s : string) : string :=
  match s with
  | String a s' => if Ascii.eqb a c then lstrip c s' else s
  | EmptyString => EmptyString
  end.

(** [sep.join(xs)] *)
Fixpoint join (sep : string) (xs : list string) : string :=
  match xs with
  | [] => EmptyString
  | [x] => x
  | x :: xs' => x +:+ sep +:+ join sep xs'
  end.

(** The specification-side reading of "contains the substring". *)
Definition occurs_in (sub s : string) : Prop :=
  ∃ pre post, s = pre +:+ sub +:+ post.

End Str.

(* ===================================================================== *)
(** ** [pathlib.PurePosixPath] *)
(* ===================================================================== *)

(** A pure path is its root (the empty string, one slash or two slashes)
    and the list of its components, root excluded. *)
Record Path : Type := mkPath { root : string; parts : list string }.

Global Instance Path_eq_dec : EqDecision Path.
Proof. solve_decision. Defined.

Module PurePath.

Definition sep : ascii := "/"%char.
Definition dot : ascii := "."%char.

(** A component that [pathlib] keeps: non-empty, without a separator and
    different from the current-directory marker. *)
Definition valid_name (n : string) : bool :=
  negb (String.eqb n "") && negb (Str.has_char sep n) && negb (String.eqb n ".").

Definition valid (p : Path) : Prop :=
  Forall (λ n, valid_name n = true) (parts p).

(** [_PosixFlavour.splitroot] *)
Definition splitroot (part : string) : string * string :=
  if Str.startswith "/" part then
    let stripped := Str.lstrip sep part in
    if Str.len part - Str.len stripped =? 2 then ("//", stripped)
    else ("/", stripped)
  else ("", part).

(** [Path(s)] for one string argument ([_PosixFlavour.parse_parts]). *)
Definition of_string (s : string) : Path :=
  let '(r, rel) := splitroot s in
  mkPath r (filter (λ x, x ≠ "" ∧ x ≠ ".") (Str.split sep rel)).

(** [str(p)] *)
Definition to_string (p : Path) : string :=
  match parts p with
  | [] => if String.eqb (root p) "" then "." else root p
  | _ => root p +:+ Str.join "/" (parts p)
  end.

(** [p.name] *)
Definition name (p : Path) : string := List.last (parts p) "".

(** [p.suffix] *)
Definition suffix (p : Path) : string :=
  let name := name p in
  let i := Str.rfind dot name in
  if (0 <? i) && (i <? Str.len name - 1) then Str.drop (Z.to_nat i) name
  else "".

(** [p.stem] *)
Definition stem (p : Path) : string :=
  let name := name p in
  let i := Str.rfind dot name in
  if (0 <? i) && (i <? Str.len name - 1) then Str.take (Z.to_nat i) name
  else name.

(** [p.parent]: the path itself when it has no component left. *)
Definition parent (p : Path) : Path :=
  mkPath (root p) (removelast (parts p)).

(** [p / key] for a string [key] *)
Definition truediv (p : Path) (key : string) : Path :=
  let q := of_string key in
  if String.eqb (root q) "" then mkPath (root p) (parts p ++ parts q)
  else q.

(** [p._make_child_relpath(n)], used by [iterdir]. *)
Definition child (p : Path) (n : string) : Path :=
  mkPath (root p) (parts p ++ [n]).

End PurePath.

Import PurePath.

(** Exceptions that can reach the module.  [OSError] carries the errno of
    the failed system call and the path it was made on; [PlainOSError] is an
    [OSError] that library code raises itself, with a message and no errno;
    [LibraryError] is anything pandas raises on content it cannot load. *)
Inductive errno : Type := ENOENT | ENOTDIR | EEXIST | EISDIR.

Inductive Exc : Type :=
| KeyError (msg : string)
| ValueError (msg : string)
| NotImplementedError
| RecursionError
| OSError (e : errno) (p : Path)
| PlainOSError (msg : string)
| LibraryError (msg : string).

Global Instance errno_eq_dec : EqDecision errno.
Proof. solve_decision. Defined.
Global Instance Exc_eq_dec : EqDecision Exc.
Proof. solve_decision. Defined.

(** [p.with_name(n)]: refuses a path without a name and a replacement
    that is not a single component. *)
Definition with_name (p : Path) (n : string) : Exc + Path :=
  if String.eqb (name p) "" then inl (ValueError "has an empty name")
  else if negb (valid_name n) then inl (ValueError "Invalid name")
  else inr (mkPath (root p) (removelast (parts p) ++ [n])).

(* ===================================================================== *)
(** ** The classifier *)
(* ===================================================================== *)

Definition DLC_OUTPUT_SUFFIX : string := ".h5".

Definition is_DLC_output (filepath : Path) : bool :=
  if negb (String.eqb (suffix filepath) DLC_OUTPUT_SUFFIX) then false
  else if negb (Str.contains "DLC_" (name filepath))
          && negb (Str.contains "DeepLabCut_" (name filepath)) then false
  else if negb (Str.contains "shuffle" (name filepath)) then false
  else true.

(* ===================================================================== *)
(** ** The world: file system, working directory, trace of calls *)
(* ===================================================================== *)

Inductive node : Type := Dir | File (content : string).

Inductive stream : Type := Stdout | Stderr.

(** Nodes are keyed by their absolute path, root excluded; the root
    directory itself always exists. *)
Record FS : Type := mkFS {
  cwd : list string;
  nodes : gmap (list string) node
}.

Definition set_nodes (s : FS) (m : gmap (list string) node) : FS :=
  mkFS (cwd s) m.

Definition lookup_node (s : FS) (a : list string) : option node :=
  match a with
  | [] => Some Dir
  | _ => nodes s !! a
  end.

(** Path resolution as the kernel does it, one component at a time: the
    directory reached so far must exist and be a directory before the next
    component is looked at; [..] steps to the parent.  There are no
    symbolic links in this model. *)
Fixpoint walk (s : FS) (cur : list string) (cs : list string)
  : errno + list string :=
  match cs with
  | [] => inr cur
  | c :: cs' =>
      match lookup_node s cur with
      | Some Dir => walk s (if String.eqb c ".." then removelast cur else cur ++ [c]) cs'
      | Some (File _) => inl ENOTDIR
      | None => inl ENOENT
      end
  end.

Definition abspath (s : FS) (p : Path) : errno + list string :=
  walk s (if String.eqb (root p) "" then cwd s else []) (parts p).

(** [os.stat(p)] *)
Definition stat (s : FS) (p : Path) : errno + node :=
  match abspath s p with
  | inl e => inl e
  | inr a => match lookup_node s a with
             | Some n => inr n
             | None => inl ENOENT
             end
  end.

(** [Path.exists] and [Path.is_dir] answer [False] on [ENOENT] and
    [ENOTDIR]. *)
Definition fs_exists (s : FS) (p : Path) : bool :=
  match stat s p with inr _ => true | inl _ => false end.

Definition fs_is_dir (s : FS) (p : Path) : bool :=
  match stat s p with inr Dir => true | _ => false end.

(** [os.mkdir(p)] *)
Definition os_mkdir (s : FS) (p : Path) : errno + FS :=
  match abspath s p with
  | inl e => inl e
  | inr a =>
      match lookup_node s a with
      | Some _ => inl EEXIST
      | None =>
          match parts p with
          | [] => inl ENOENT
          | _ => inr (set_nodes s (<[a := Dir]> (nodes s)))
          end
      end
  end.

(** [open(p, 'w')] followed by writing [content] and closing. *)
Definition os_write (s : FS) (p : Path) (content : string) : errno + FS :=
  match abspath s p with
  | inl e => inl e
  | inr a =>
      match lookup_node s a with
      | Some Dir => inl EISDIR
      | _ => inr (set_nodes s (<[a := File content]> (nodes s)))
      end
  end.

(** How pandas opens a destination given by its path: before the file is
    opened, [check_parent_directory] raises an [OSError] of its own, naming
    the parent, unless the parent is a directory. *)
Definition checked_write (s : FS) (p : Path) (content : string) : Exc + FS :=
  if negb (fs_is_dir s (parent p)) then
    inl (PlainOSError ("Cannot save file into a non-existent directory: '"
                       +:+ to_string (parent p) +:+ "'"))
  else
    match os_write s p content with
    | inr s' => inr s'
    | inl e => inl (OSError e p)
    end.

(** [os.listdir(p)]: the names directly below [p], in the order of the
    underlying map. *)
Definition os_listdir (s : FS) (p : Path) : errno + list string :=
  match abspath s p with
  | inl e => inl e
  | inr a =>
      match lookup_node s a with
      | Some Dir =>
          inr (omap (λ kv : list string * node,
                       if decide (kv.1 ≠ [] ∧ removelast kv.1 = a)
                       then Some (List.last kv.1 "") else None)
                    (map_to_list (nodes s)))
      | Some (File _) => inl ENOTDIR
      | None => inl ENOENT
      end
  end.

(** [Path.mkdir] catches [FileNotFoundError] to create the parents first
    and, with [exist_ok], forgives any other error when the directory is
    there.  The outcome comes with the file system reached, since a failed
    call may already have created some of the parents. *)
Definition mkdir_plain (p : Path) (exist_ok : bool) (s : FS) : (Exc + unit) * FS :=
  match os_mkdir s p with
  | inr s' => (inr tt, s')
  | inl ENOENT => (inl (OSError ENOENT p), s)
  | inl e => if exist_ok && fs_is_dir s p then (inr tt, s)
             else (inl (OSError e p), s)
  end.

(** The recursion of [mkdir(parents=True)] runs over the components from
    the last one, so the list is passed reversed. *)
Fixpoint mkdir_parents (r : string) (rev_parts : list string) (exist_ok : bool)
    (s : FS) : (Exc + unit) * FS :=
  let p := mkPath r (rev rev_parts) in
  match os_mkdir s p with
  | inr s' => (inr tt, s')
  | inl ENOENT =>
      match rev_parts with
      | [] => (inl (OSError ENOENT p), s)
      | _ :: above =>
          match mkdir_parents r above true s with
          | (inr _, s') => mkdir_plain p exist_ok s'
          | (inl e, s') => (inl e, s')
          end
      end
  | inl e => if exist_ok && fs_is_dir s p then (inr tt, s)
             else (inl (OSError e p), s)
  end.

(** One entry per call the module makes to a collaborator.  The answer of
    [is_dir] is kept with the call: the walk branches on it. *)
Inductive call : Type :=
| Exists (p : Path)                   (* [p.exists()] *)
| IsDir (p : Path) (answer : bool)    (* [p.is_dir()] *)
| Mkdir (p : Path)                    (* [p.mkdir(parents=True)] *)
| Iterdir (p : Path)                  (* [p.iterdir()] *)
| ReadHdf (p : Path)                  (* [pd.read_hdf(p)] *)
| ToCsv (p : Path)                    (* [tab.to_csv(p, ...)] *)
| PrintExc (e : Exc)                  (* [print_exc(file=sys.stderr)] *)
| Print (s : stream) (line : string). (* [print(line, file=s, flush=True)] *)

Record World : Type := mkWorld {
  fs : FS;
  trace : list call
}.

(* ===================================================================== *)
(** ** Computations: state passing with exceptions *)
(* ===================================================================== *)

Definition M (A : Type) : Type := World → (Exc + A) * World.

Definition ret {A} (x : A) : M A := λ w, (inr x, w).
Definition raise {A} (e : Exc) : M A := λ w, (inl e, w).
Definition bind {A B} (m : M A) (k : A → M B) : M B :=
  λ w, match m w with
       | (inr x, w') => k x w'
       | (inl e, w') => (inl e, w')
       end.

(** [try: m except Exception as e: h e].  [guard h] is what the handler
    makes of the outcome of the suite. *)
Definition guard {A} (h : Exc → M A) (outcome : (Exc + A) * World)
  : (Exc + A) * World :=
  match outcome with
  | (inr x, w') => (inr x, w')
  | (inl e, w') => h e w'
  end.

Definition try_except {A} (m : M A) (h : Exc → M A) : M A :=
  λ w, guard h (m w).

Definition lift {A} (r : Exc + A) : M A :=
  match r with inl e => raise e | inr x => ret x end.

Definition log (c : call) : M unit :=
  λ w, (inr tt, mkWorld (fs w) (trace w ++ [c])).

(** Reading the file system; a system call that raises [OSError] on [p];
    a computation on the file system alone. *)
Definition gets {A} (f : FS → A) : M A := λ w, (inr (f (fs w)), w).

Definition syscall {A} (p : Path) (f : FS → errno + A) : M A :=
  λ w, match f (fs w) with
       | inr x => (inr x, w)
       | inl e => (inl (OSError e p), w)
       end.

Definition on_fs {A} (f : FS → (Exc + A) * FS) : M A :=
  λ w, let '(r, s) := f (fs w) in (r, mkWorld s (trace w)).

(** stdpp's [x ← m; k] and [m ;; k] are used for sequencing. *)
Global Instance M_ret : MRet M := @ret.
Global Instance M_bind : MBind M := λ A B k m, bind m k.

(** [for x in xs: body x] *)
Fixpoint for_each {A} (xs : list A) (body : A → M unit) : M unit :=
  match xs with
  | [] => ret tt
  | x :: xs' => body x ;; for_each xs' body
  end.

(** *** [pathlib.Path] methods *)

Definition Path_exists (p : Path) : M bool :=
  log (Exists p) ;; gets (λ s, fs_exists s p).

Definition Path_is_dir (p : Path) : M bool :=
  is_dir ← gets (λ s, fs_is_dir s p);
  log (IsDir p is_dir) ;; ret is_dir.

Definition Path_mkdir (p : Path) (parents exist_ok : bool) : M unit :=
  log (Mkdir p) ;;
  on_fs (if parents then mkdir_parents (root p) (rev (parts p)) exist_ok
         else mkdir_plain p exist_ok).

Definition Path_iterdir (p : Path) : M (list Path) :=
  log (Iterdir p) ;;
  names ← syscall p (λ s, os_listdir s p);
  ret (map (child p) names).

Definition print (s : stream) (line : string) : M unit := log (Print s line).
Definition print_exc (e : Exc) : M unit := log (PrintExc e).

(* ===================================================================== *)
(** ** [Status] and [Result] *)
(* ===================================================================== *)

Inductive Status : Type := SUCCESS | SKIPPED | FAILED.

Global Instance Status_eq_dec : EqDecision Status.
Proof. solve_decision. Defined.

Module Result.

Record t : Type := mk {
  dstfile : string;
  status : Status;
  message : option string
}.

Definition success (dstfile : Path) : t :=
  mk (to_string dstfile) SUCCESS None.
Definition skipped (dstfile : Path) (message : string) : t :=
  mk (to_string dstfile) SKIPPED (Some message).
Definition failed (dstfile : Path) (message : string) : t :=
  mk (to_string dstfile) FAILED (Some message).

Definition is_success (r : t) : bool := bool_decide (status r = SUCCESS).
Definition is_skipped (r : t) : bool := bool_decide (status r = SKIPPED).
Definition is_failed (r : t) : bool := bool_decide (status r = FAILED).

End Result.

(** How an f-string renders an optional message. *)
Definition format_message (m : option string) : string :=
  match m with Some s => s | None => "None" end.

(* ===================================================================== *)
(** ** Conversion strategies *)
(* ===================================================================== *)

Module Conversion.

Record t (Table : Type) : Type := mk {
  srcfile : Path;
  dstfile : Exc + Path;
  convert : Table → Path → M unit
}.
Arguments mk {Table}.
Arguments srcfile {Table}.
Arguments dstfile {Table}.
Arguments convert {Table}.

(** The base class implements neither capability. *)
Definition base {Table} (srcfile : Path) : t Table :=
  mk srcfile (inl NotImplementedError) (λ _ _, raise NotImplementedError).

End Conversion.

(* ===================================================================== *)
(** ** Converter and tree walker *)
(* ===================================================================== *)

(** What the collaborators contribute: the in-memory table of pandas, the
    loader's verdict on the bytes of a file, the CSV text of a table (header
    row, no index column), and the interpreter's [str(e)] for an
    exception. *)
Class Externals : Type := {
  Table : Type;
  parse_hdf : string → Exc + Table;
  csv_text : Table → string;
  str_exc : Exc → string
}.

Section Converter.

Context {ext : Externals}.

(** [pd.read_hdf(p)] *)
Definition read_hdf (p : Path) : M Table :=
  log (ReadHdf p) ;;
  n ← syscall p (λ s, stat s p);
  match n with
  | File content => lift (parse_hdf content)
  | Dir => raise (OSError EISDIR p)
  end.

(** [tab.to_csv(p, header=True, index=False)] *)
Definition to_csv (tab : Table) (p : Path) : M unit :=
  log (ToCsv p) ;;
  on_fs (λ s, match checked_write s p (csv_text tab) with
              | inr s' => (inr tt, s')
              | inl e => (inl e, s)
              end).

Definition CSVConversion (srcfile : Path) : Conversion.t Table :=
  Conversion.mk srcfile
    (with_name srcfile (stem srcfile +:+ ".csv"))
    (λ tab dstfile, to_csv tab dstfile).

Definition FORMATS : gmap string (Path → Conversion.t Table) :=
  {[ "csv" := CSVConversion ]}.

(** The two blocks of [convert] that every path through it ends in: the
    load and the write (the last three statements of the [try] suite) and
    the [except] clause. *)
Definition load_and_write (conversion : Conversion.t Table)
    (srcfile dstfile : Path) : M Result.t :=
  tab ← read_hdf srcfile;
  Conversion.convert conversion tab dstfile ;;
  ret (Result.success dstfile).

Definition on_exception (dstfile : Path) (e : Exc) : M Result.t :=
  print_exc e ;;
  ret (Result.failed dstfile ("failed to convert: " +:+ str_exc e)).

Definition convert (srcfile : Path) (fileformat : string)
    (dstdir : option string) (overwrite : bool) : M Result.t :=
  match FORMATS !! fileformat with
  | None => raise (KeyError ("file format not found: '" +:+ fileformat +:+ "'"))
  | Some Converter =>
      let conversion := Converter srcfile in
      dstfile ← lift (Conversion.dstfile conversion);
      let dstfile :=
        match dstdir with
        | Some d => truediv (of_string d) (name dstfile)
        | None => dstfile
        end in
      try_except
        (parent_exists ← Path_exists (parent dstfile);
         if negb parent_exists then
           Path_mkdir (parent dstfile) true false ;;
           load_and_write conversion srcfile dstfile
         else
           dst_exists ← Path_exists dstfile;
           if dst_exists && negb overwrite then
             ret (Result.skipped dstfile "the converted file already exists")
           else load_and_write conversion srcfile dstfile)
        (on_exception dstfile)
  end.

(** The body of the loop of [_recurse_single]. *)
Definition visit (fileformat : string) (dstdir : option string)
    (overwrite : bool) (recurse : Path → M unit) (child : Path) : M unit :=
  Path_is_dir child ≫= λ is_dir : bool,
  if is_dir then recurse child
  else if is_DLC_output child then
    result ← convert child fileformat dstdir overwrite;
    if Result.is_success result then
      print Stdout (name child)
    else
      print Stderr
        ("***" +:+ format_message (Result.message result) +:+ ": " +:+ name child)
  else ret tt.

(** [depth] is the number of nested calls the interpreter still allows;
    when it is used up the call raises [RecursionError]. *)
Fixpoint _recurse_single (fileformat : string) (dstdir : option string)
    (overwrite : bool) (depth : nat) (current : Path) : M unit :=
  match depth with
  | O => raise RecursionError
  | S depth' =>
      children ← Path_iterdir current;
      for_each children
        (visit fileformat dstdir overwrite
           (_recurse_single fileformat dstdir overwrite depth'))
  end.

Definition convert_recursive (directory : option string) (fileformat : string)
    (dstdir : option string) (overwrite : bool) (depth : nat) : M unit :=
  let directory :=
    match directory with
    | None => mkPath "" []
    | Some d => of_string d
    end in
  _recurse_single fileformat dstdir overwrite depth directory.

End Converter.

(** The line the walker prints for a result. *)
Definition report (child : Path) (result : Result.t) : call :=
  if Result.is_success result then Print Stdout (name child)
  else Print Stderr
         ("***" +:+ format_message (Result.message result) +:+ ": " +:+ name child).

(** Projections of a trace: the calls [convert] makes, the lines printed,
    the probes of the walker that found a file the classifier matches. *)
Definition in_convert (c : call) : bool :=
  match c with
  | Exists _ | Mkdir _ | ReadHdf _ | ToCsv _ | PrintExc _ => true
  | IsDir _ _ | Iterdir _ | Print _ _ => false
  end.

Definition matched_probe (c : call) : bool :=
  match c with
  | IsDir p false => is_DLC_output p
  | _ => false
  end.

Definition is_print (c : call) : bool :=
  match c with Print _ _ => true | _ => false end.


(** As many lines printed as files matched. *)
Definition balanced (cs : list call) : Prop :=
  length (filter (λ c, is_print c = true) cs)
  = length (filter (λ c, matched_probe c = true) cs).

Definition touches_files (c : call) : bool :=
  match c with
  | Print _ _ | PrintExc _ => false
  | _ => true
  end.

(* ===================================================================== *)
(** ** A concrete instance, for running the definitions *)
(* ===================================================================== *)

Module Demo.

(** Tables are their own text; a file loads when it starts with [HDF]. *)
Definition parse (content : string) : Exc + string :=
  if Str.startswith "HDF" content then inr (Str.drop 3 content)
  else inl (LibraryError "not an HDF5 file").

Definition render (tab : string) : string := tab.

Definition str (e : Exc) : string :=
  match e with
  | KeyError m | ValueError m | PlainOSError m | LibraryError m => m
  | NotImplementedError => ""
  | RecursionError => "maximum recursion depth exceeded"
  | OSError ENOENT p => "[Errno 2] No such file or directory: " +:+ to_string p
  | OSError ENOTDIR p => "[Errno 20] Not a directory: " +:+ to_string p
  | OSError EEXIST p => "[Errno 17] File exists: " +:+ to_string p
  | OSError EISDIR p => "[Errno 21] Is a directory: " +:+ to_string p
  end.

Definition externals : Externals :=
  {| Table := string; parse_hdf := parse; csv_text := render; str_exc := str |}.

Definition run_convert := @convert externals.
Definition run_walk := @convert_recursive externals.

Definition src : Path := mkPath "/" ["data"; "m1DLC_resnet50_shuffle1.h5"].
Definition dst : Path := mkPath "/" ["data"; "m1DLC_resnet50_shuffle1.csv"].

(** The output that does not load, and a file of the same name as [src]
    in another directory. *)
Definition bad : Path := mkPath "/" ["data"; "m2DeepLabCut_shuffle2.h5"].
Definition bad_dst : Path := mkPath "/" ["data"; "m2DeepLabCut_shuffle2.csv"].
Definition twin : Path := mkPath "/" ["other"; "m1DLC_resnet50_shuffle1.h5"].
Definition twin_dst : Path := mkPath "/" ["other"; "m1DLC_resnet50_shuffle1.csv"].

(** [/data] holds one loadable output, one that does not load, and a
    plain text file; [/plain.txt] is a regular file. *)
Definition fs0 : gmap (list string) node :=
  list_to_map
    [ (["data"], Dir);
      (["data"; "m1DLC_resnet50_shuffle1.h5"], File "HDFx,y");
      (["data"; "m2DeepLabCut_shuffle2.h5"], File "garbage");
      (["data"; "notes.txt"], File "hello");
      (["plain.txt"], File "text") ].

Definition w0 : World := mkWorld (mkFS [] fs0) [].

(** The same tree once the first output has been converted. *)
Definition w1 : World :=
  mkWorld (mkFS [] (<[ ["data"; "m1DLC_resnet50_shuffle1.csv"] := File "x,y" ]> fs0)) [].

End Demo.

(** The destination after the optional rebase onto [dstdir], as [convert]
    computes it from the strategy's default destination. *)
Definition rebased (dstdir : option string) (default : Path) : Path :=
  match dstdir with
  | Some d => truediv (of_string d) (name default)
  | None => default
  end.

(** [extends s s']: every node of [s] is still there in [s'], unchanged;
    [keeps_dirs s s']: every directory of [s] is still a directory. *)
Definition extends (s s' : FS) : Prop :=
  cwd s' = cwd s ∧ ∀ k n, lookup_node s k = Some n → lookup_node s' k = Some n.

Definition keeps_dirs (s s' : FS) : Prop :=
  cwd s' = cwd s ∧ ∀ k, lookup_node s k = Some Dir → lookup_node s' k = Some Dir.

(** The reading of the converter in which a failure to create the
    destination's parent directory is outside the protected suite: whenever
    [mkdir(parents=True)] raises, [convert] raises the same exception. *)
Definition mkdir_failure_propagates {ext : Externals} : Prop :=
  ∀ (w : World) (src : Path) (fmt : string) (conv : Path → Conversion.t Table)
    (dstdir : option string) (overwrite : bool) (d : Path) (e : Exc) (s : FS),
    FORMATS !! fmt = Some conv →
    Conversion.dstfile (conv src) = inr d →
    fs_exists (fs w) (parent (rebased dstdir d)) = false →
    mkdir_parents (root (parent (rebased dstdir d)))
      (rev (parts (parent (rebased dstdir d)))) false (fs w) = (inl e, s) →
    (convert src fmt dstdir overwrite w).1 = inl e.

(** A destination [convert] can write for the first time: it is not there,
    and its directory is, or is missing and can be created by
    [mkdir(parents=True)] (without the destination turning out to be one of
    the directories created). *)
Definition destination_ready (s : FS) (dst : Path) : Prop :=
  fs_exists s dst = false
  ∧ (fs_is_dir s (parent dst) = true
     ∨ (fs_exists s (parent dst) = false
        ∧ ∃ s', mkdir_parents (root (parent dst)) (rev (parts (parent dst)))
                  false s = (inr tt, s')
                ∧ fs_is_dir s' dst = false)).

(** The paths [pathlib] builds: the root is empty, one slash or two, and
    every component is a proper name. *)
Definition valid_root (r : string) : bool :=
  String.eqb r "" || String.eqb r "/" || String.eqb r "//".

Definition wf_path (p : Path) : Prop :=
  valid_root (root p) = true ∧ valid p.

(** What [pd.read_hdf(p)] comes to on a file system. *)
Definition loaded {ext : Externals} (s : FS) (p : Path) : Exc + Table :=
  match stat s p with
  | inr (File content) => parse_hdf content
  | inr Dir => inl (OSError EISDIR p)
  | inl e => inl (OSError e p)
  end.

(** Keys whose last component ends in [.csv], and [spares s s']: every
    directory of [s] and every file of [s] not under such a key is still
    there in [s'], unchanged. *)
Definition csv_key (k : list string) : Prop :=
  ∃ stem, List.last k "" = stem +:+ ".csv".

Definition spares (s s' : FS) : Prop :=
  cwd s' = cwd s
  ∧ ∀ k n, lookup_node s k = Some n → n = Dir ∨ ¬ csv_key k →
           lookup_node s' k = Some n.

(** The calls of a walk that never gets into [convert]: probes and
    listings only. *)
Definition walker_probe (c : call) : bool :=
  match c with
  | IsDir _ _ | Iterdir _ => true
  | _ => false
  end.

(** A run of the walker that never got into a conversion: the file system
    is as before and only probes and listings were made; if it returned, no
    file matched, and the configuration error can only come from a file
    that did. *)
Definition probes_only (w : World) (res : Exc + unit) (w' : World) : Prop :=
  fs w' = fs w
  ∧ ∃ cs, trace w' = (trace w ++ cs)%list
          ∧ Forall (λ c, walker_probe c = true) cs
          ∧ (res = inr tt → Forall (λ c, matched_probe c = false) cs)
          ∧ (∀ msg, res = inl (KeyError msg) →
                    List.Exists (λ c, matched_probe c = true) cs).

(** Where the resolution of a path with root [r] starts: the working
    directory for a relative path, the root directory otherwise. *)
Definition anchor (s : FS) (r : string) : list string :=
  if String.eqb r "" then cwd s else [].

(** A directory that is missing and that nothing keeps from being made:
    its components are [above] followed by [missing], none of them [..];
    [above] is a directory; and no node, file or directory, is stored at
    any of the places the components of [missing] lead to. *)
Definition creatable (s : FS) (dir : Path) (above missing : list string) : Prop :=
  parts dir = (above ++ missing)%list
  ∧ missing ≠ []
  ∧ Forall (λ c, c ≠ "..") (parts dir)
  ∧ fs_is_dir s (mkPath (root dir) above) = true
  ∧ ∀ j, (0 < j ≤ length missing)%nat →
         lookup_node s (anchor s (root dir) ++ above ++ take j missing) = None.

(** The world after more logged calls. *)
Definition logged (w : World) (cs : list call) : World :=
  mkWorld (fs w) (trace w ++ cs).

(* ===================================================================== *)
(** ** Strings *)
(* ===================================================================== *)

Local Arguments String.append !_ _ / : simpl nomatch.

Lemma append_assoc (a b c : string) : (a +:+ b) +:+ c = a +:+ (b +:+ c).
Proof. induction a as [|x a IH]; simpl; [done | by rewrite IH]. Qed.

Lemma append_empty_r (a : string) : a +:+ "" = a.
Proof. induction a as [|x a IH]; simpl; [done | by rewrite IH]. Qed.

Lemma length_append (a b : string) :
  String.length (a +:+ b) = (String.length a + String.length b)%nat.
Proof. induction a as [|x a IH]; simpl; [done | by rewrite IH]. Qed.

Lemma ascii_eqb_true (a b : ascii) : Ascii.eqb a b = true ↔ a = b.
Proof. apply Ascii.eqb_eq. Qed.

Lemma startswith_spec (p s : string) :
  Str.startswith p s = true ↔ ∃ post, s = p +:+ post.
Proof.
  revert s. induction p as [|a p IH]; intros s; simpl.
  - split; [eauto | done].
  - destruct s as [|b s].
    + split; [done | intros [post H]; discriminate].
    + rewrite andb_true_iff, ascii_eqb_true, IH. split.
      * intros [-> [post ->]]. eauto.
      * intros [post H]. injection H as -> ->. eauto.
Qed.

Lemma contains_spec (sub s : string) :
  Str.contains sub s = true ↔ Str.occurs_in sub s.
Proof.
  unfold Str.occurs_in. induction s as [|b s IH].
  - simpl. rewrite orb_false_r, startswith_spec. split.
    + intros [post H]. by exists "", post.
    + intros [pre [post H]]. destruct pre; [by exists post | discriminate].
  - cbn [Str.contains]. rewrite orb_true_iff, startswith_spec, IH. split.
    + intros [[post H] | [pre [post H]]].
      * by exists "", post.
      * exists (String b pre), post. simpl. by rewrite H.
    + intros [pre [post H]]. destruct pre as [|c pre]; simpl in H.
      * left. eauto.
      * right. injection H as _ ->. eauto.
Qed.

Lemma rfind_bounds (c : ascii) (s : string) : -1 ≤ Str.rfind c s < Str.len s.
Proof.
  unfold Str.len. induction s as [|a s IH]; simpl String.length; simpl Str.rfind.
  - lia.
  - destruct (0 <=? Str.rfind c s) eqn:E; [lia |].
    destruct (Ascii.eqb a c); lia.
Qed.

Lemma take_drop (n : nat) (s : string) : Str.take n s +:+ Str.drop n s = s.
Proof.
  revert s. induction n as [|n IH]; intros [|a s]; simpl; try done.
  by rewrite IH.
Qed.

Lemma take_append (a b : string) : Str.take (String.length a) (a +:+ b) = a.
Proof. induction a as [|x a IH]; simpl; [by destruct b | by rewrite IH]. Qed.

Lemma drop_append (a b : string) : Str.drop (String.length a) (a +:+ b) = b.
Proof. induction a as [|x a IH]; simpl; done. Qed.

Lemma length_take (n : nat) (s : string) :
  (n ≤ String.length s)%nat → String.length (Str.take n s) = n.
Proof.
  revert s. induction n as [|n IH]; intros [|a s] H; simpl in *; try lia.
  rewrite IH; lia.
Qed.

(** The needle is the first character of what follows its last position. *)
Lemma rfind_drop (c : ascii) (s : string) :
  0 ≤ Str.rfind c s →
  ∃ rest, Str.drop (Z.to_nat (Str.rfind c s)) s = String c rest
          ∧ Str.rfind c rest = -1.
Proof.
  induction s as [|a s IH]; simpl Str.rfind; [lia |].
  destruct (0 <=? Str.rfind c s) eqn:E.
  - intros _. apply Z.leb_le in E. destruct (IH E) as [rest [H1 H2]].
    exists rest. split; [|done].
    replace (Z.to_nat (Str.rfind c s + 1)) with (S (Z.to_nat (Str.rfind c s))) by lia.
    done.
  - apply Z.leb_gt in E. destruct (Ascii.eqb a c) eqn:Ea; [|lia].
    intros _. apply ascii_eqb_true in Ea as ->. exists s. split; [done|].
    pose proof (rfind_bounds c s). lia.
Qed.

(** A needle-free tail puts the last occurrence right before it. *)
Lemma rfind_append (c : ascii) (pre rest : string) :
  Str.rfind c rest = -1 →
  Str.rfind c (pre +:+ String c rest) = Z.of_nat (String.length pre).
Proof.
  intros Hrest. induction pre as [|a pre IH]; simpl.
  - rewrite Hrest. simpl. by rewrite Ascii.eqb_refl.
  - rewrite IH. destruct (0 <=? Z.of_nat (String.length pre)) eqn:E; [lia|].
    apply Z.leb_gt in E. lia.
Qed.

Lemma has_char_append (c : ascii) (a b : string) :
  Str.has_char c (a +:+ b) = Str.has_char c a || Str.has_char c b.
Proof.
  induction a as [|x a IH]; simpl; [done|]. by rewrite IH, orb_assoc.
Qed.

Lemma has_char_take (c : ascii) (n : nat) (s : string) :
  Str.has_char c s = false → Str.has_char c (Str.take n s) = false.
Proof.
  revert s. induction n as [|n IH]; intros [|a s]; simpl; try done.
  rewrite !orb_false_iff. intros [-> H]. auto.
Qed.

(* ===================================================================== *)
(** ** Pure paths *)
(* ===================================================================== *)

Lemma string_eqb_false (a b : string) : String.eqb a b = false ↔ a ≠ b.
Proof. apply String.eqb_neq. Qed.

Lemma valid_name_spec (n : string) :
  valid_name n = true ↔ n ≠ "" ∧ Str.has_char sep n = false ∧ n ≠ ".".
Proof.
  unfold valid_name.
  rewrite !andb_true_iff, !negb_true_iff, !string_eqb_false. tauto.
Qed.

(** [suffix] and [stem] cut the name at one place. *)
Lemma stem_suffix (p : Path) : stem p +:+ suffix p = name p.
Proof.
  unfold stem, suffix.
  destruct ((0 <? _) && _); [apply take_drop | apply append_empty_r].
Qed.

Lemma stem_nonempty (p : Path) : name p ≠ "" → stem p ≠ "".
Proof.
  unfold stem. intros Hn.
  destruct ((0 <? _) && _) eqn:E; [|done].
  apply andb_true_iff in E as [E1 E2].
  apply Z.ltb_lt in E1, E2. unfold Str.len in E2.
  intros H. apply (f_equal String.length) in H.
  rewrite length_take in H by lia. simpl in H. lia.
Qed.

Lemma stem_no_sep (p : Path) :
  Str.has_char sep (name p) = false → Str.has_char sep (stem p) = false.
Proof.
  unfold stem. intros H.
  destruct ((0 <? _) && _); [by apply has_char_take | done].
Qed.

(** A name made of a non-empty stem and an extension [.xyz] without
    further dots splits back into the two. *)
Lemma split_extension (r : string) (ps : list string) (s ext : string) :
  s ≠ "" → ext ≠ "" → Str.rfind dot ext = -1 →
  let p := mkPath r (ps ++ [s +:+ String dot ext]) in
  stem p = s ∧ suffix p = String dot ext.
Proof.
  intros Hs Hext Hrf p.
  assert (Hname : name p = s +:+ String dot ext)
    by (unfold name, p; simpl; apply last_last).
  unfold stem, suffix. rewrite Hname, (rfind_append _ _ _ Hrf).
  unfold Str.len. rewrite length_append. simpl String.length.
  assert (0 < String.length s)%nat by (destruct s; simpl; [done | lia]).
  assert (0 < String.length ext)%nat by (destruct ext; simpl; [done | lia]).
  replace ((0 <? Z.of_nat (String.length s)) &&
           (Z.of_nat (String.length s) <?
              Z.of_nat (String.length s + S (String.length ext)) - 1))
    with true
    by (symmetry; apply andb_true_iff; split; apply Z.ltb_lt; lia).
  rewrite Nat2Z.id. split; [apply take_append | apply drop_append].
Qed.

(** The extension is [.h5] exactly when the name is a non-empty stem
    followed by [.h5]. *)
Lemma suffix_h5_iff (p : Path) :
  suffix p = ".h5" ↔ ∃ s, s ≠ "" ∧ name p = s +:+ ".h5".
Proof.
  split.
  - intros H. exists (stem p). split.
    + apply stem_nonempty. intros Hn. unfold suffix in H. rewrite Hn in H.
      simpl in H. discriminate.
    + by rewrite <- H, stem_suffix.
  - intros [s [Hs Hn]].
    destruct p as [r ps]. unfold name in Hn. simpl in Hn.
    destruct (decide (ps = [])) as [-> | Hne].
    { simpl in Hn. destruct s; discriminate. }
    destruct (exists_last Hne) as [ps' [n ->]].
    rewrite last_last in Hn. subst n.
    by apply (split_extension r ps' s "h5").
Qed.

Lemma name_snoc (r : string) (ps : list string) (n : string) :
  name (mkPath r (ps ++ [n])) = n.
Proof. unfold name. simpl. apply last_last. Qed.

Lemma parent_snoc (r : string) (ps : list string) (n : string) :
  parent (mkPath r (ps ++ [n])) = mkPath r ps.
Proof. unfold parent. simpl. by rewrite removelast_last. Qed.

(** A path with a name is its parent extended by that name. *)
Lemma parts_parent_name (p : Path) :
  name p ≠ "" → parts p = (parts (parent p) ++ [name p])%list.
Proof.
  destruct p as [r ps]. unfold name, parent. simpl. intros H.
  destruct (decide (ps = [])) as [-> | Hne]; [done |].
  by apply app_removelast_last.
Qed.

Lemma valid_name_nonempty (n : string) : valid_name n = true → n ≠ "".
Proof. intros H. by apply valid_name_spec in H as [? _]. Qed.

(** The name the CSV strategy builds is a proper component. *)
Lemma valid_csv_name (p : Path) :
  valid_name (name p) = true → valid_name (stem p +:+ ".csv") = true.
Proof.
  intros H. apply valid_name_spec in H as [Hne [Hsep _]].
  pose proof (stem_nonempty p Hne) as Hs.
  apply valid_name_spec. split_and!.
  - destruct (stem p); [done | discriminate].
  - rewrite has_char_append, (stem_no_sep p Hsep). done.
  - intros E. apply (f_equal String.length) in E.
    rewrite length_append in E. simpl in E. lia.
Qed.

(* ===================================================================== *)
(** ** The classifier *)
(* ===================================================================== *)

(** C1.  The classifier answers [true] exactly when the extension is
    [.h5], the file name contains [DLC_] or [DeepLabCut_], and the file
    name contains [shuffle]. *)
Theorem is_DLC_output_iff (p : Path) :
  is_DLC_output p = true ↔
    suffix p = ".h5"
    ∧ (Str.occurs_in "DLC_" (name p) ∨ Str.occurs_in "DeepLabCut_" (name p))
    ∧ Str.occurs_in "shuffle" (name p).
Proof.
  rewrite <- !contains_spec. unfold is_DLC_output, DLC_OUTPUT_SUFFIX.
  destruct (String.eqb (suffix p) ".h5") eqn:Es; simpl.
  - apply String.eqb_eq in Es.
    destruct (Str.contains "DLC_" (name p)),
             (Str.contains "DeepLabCut_" (name p)),
             (Str.contains "shuffle" (name p)); simpl; intuition congruence.
  - apply String.eqb_neq in Es. intuition congruence.
Qed.

(** C10.  The classifier looks at the final component only: two paths with
    the same file name get the same answer, whatever their directories. *)
Theorem is_DLC_output_name_only (p q : Path) :
  name p = name q → is_DLC_output p = is_DLC_output q.
Proof.
  intros H. unfold is_DLC_output, suffix. by rewrite H.
Qed.

Lemma is_DLC_output_name_only_witness :
  name (mkPath "/" ["a"; "x_DLC_shuffle1.h5"])
    = name (mkPath "" ["b"; "c"; "x_DLC_shuffle1.h5"])
  ∧ is_DLC_output (mkPath "/" ["a"; "x_DLC_shuffle1.h5"])
    = is_DLC_output (mkPath "" ["b"; "c"; "x_DLC_shuffle1.h5"]).
Proof.
  split; [reflexivity |].
  apply (is_DLC_output_name_only
           (mkPath "/" ["a"; "x_DLC_shuffle1.h5"])
           (mkPath "" ["b"; "c"; "x_DLC_shuffle1.h5"])).
  reflexivity.
Defined.

(** The boundary cases the specification lists. *)
Example classifier_cases :
  map (λ n, is_DLC_output (mkPath "" [n]))
      ["x_DLC_shuffle1.h5"; "x_DLC_shuffle1.csv"; "x_shuffle1.h5"; "x_DLC_1.h5";
       "xDeepLabCut_shuffle2.h5"; ".h5"; "DLC_shuffle.h5."]
  = [true; false; false; false; true; false; false].
Proof. reflexivity. Qed.

(* ===================================================================== *)
(** ** The CSV strategy *)
(* ===================================================================== *)

Section Properties.

Context {ext : Externals}.

Lemma CSV_dstfile_eq (p : Path) :
  valid_name (name p) = true →
  Conversion.dstfile (CSVConversion p)
  = inr (mkPath (root p) (parts (parent p) ++ [stem p +:+ ".csv"])).
Proof.
  intros H. simpl. unfold with_name.
  rewrite (valid_csv_name p H). simpl.
  apply valid_name_nonempty in H. apply String.eqb_neq in H. by rewrite H.
Qed.

(** A path without a final component has no destination: the property
    raises. *)
Lemma CSV_dstfile_unnamed (p : Path) :
  name p = "" →
  Conversion.dstfile (CSVConversion p) = inl (ValueError "has an empty name").
Proof. intros E. simpl. unfold with_name. by rewrite E. Qed.

(** C8.  For a source path that ends in a proper file name (as the path of
    every file does), the CSV strategy's destination is the source path
    with its extension replaced by [.csv]: same parent directory, same
    stem. *)
Theorem CSV_dstfile (p : Path) :
  valid_name (name p) = true →
  ∃ q, Conversion.dstfile (CSVConversion p) = inr q
       ∧ parent q = parent p
       ∧ stem q = stem p
       ∧ suffix q = ".csv"
       ∧ name p = stem p +:+ suffix p
       ∧ name q = stem p +:+ ".csv".
Proof.
  intros H. eexists. split; [by apply CSV_dstfile_eq |].
  rewrite parent_snoc, name_snoc, stem_suffix.
  pose proof (stem_nonempty p (valid_name_nonempty _ H)) as Hs.
  destruct (split_extension (root p) (parts (parent p)) (stem p) "csv")
    as [E1 E2]; try done.
Qed.

End Properties.

(* ===================================================================== *)
(** ** Parsing a single component, joining it to a directory *)
(* ===================================================================== *)

Lemma split_no_sep (c : ascii) (s : string) :
  Str.has_char c s = false → Str.split c s = [s].
Proof.
  induction s as [|a s IH]; simpl; [done |].
  rewrite orb_false_iff. intros [-> H]. by rewrite (IH H).
Qed.

Lemma of_string_name (n : string) :
  valid_name n = true → of_string n = mkPath "" [n].
Proof.
  intros H. apply valid_name_spec in H as [Hne [Hsep Hdot]].
  unfold of_string, splitroot.
  assert (Str.startswith "/" n = false) as ->.
  { destruct (Str.startswith "/" n) eqn:E; [|done].
    apply startswith_spec in E as [post ->]. discriminate Hsep. }
  rewrite (split_no_sep _ _ Hsep). simpl.
  by rewrite filter_cons_True, filter_nil.
Qed.

Lemma split_pieces (c : ascii) (s : string) :
  Forall (λ x, Str.has_char c x = false) (Str.split c s).
Proof.
  induction s as [|a s IH]; simpl; [by repeat constructor |].
  destruct (Ascii.eqb a c) eqn:E; [by constructor |].
  destruct (Str.split c s) as [|x xs]; inversion IH as [|? ? Hx Hxs]; subst;
    constructor; simpl; rewrite ?E, ?Hx; done.
Qed.

(** Whatever string is parsed, the components kept are proper names. *)
Lemma of_string_valid (s : string) : valid (of_string s).
Proof.
  unfold valid, of_string. destruct (splitroot s) as [r rel]. simpl.
  apply Forall_forall. intros x Hx.
  apply list_elem_of_filter in Hx as [[Hne Hdot] Hin].
  pose proof (split_pieces sep rel) as Hp.
  rewrite Forall_forall in Hp. apply valid_name_spec. auto.
Qed.

Lemma truediv_name (q : Path) (n : string) :
  valid_name n = true → truediv q n = child q n.
Proof. intros H. unfold truediv. by rewrite (of_string_name n H). Qed.

(** The rebase keeps the name and, when a directory is given, makes that
    directory the parent. *)
Lemma rebased_name (dstdir : option string) (d : Path) :
  valid_name (name d) = true → name (rebased dstdir d) = name d.
Proof.
  intros H. destruct dstdir as [D|]; simpl; [|done].
  rewrite (truediv_name _ _ H). apply name_snoc.
Qed.

Lemma rebased_parent (D : string) (d : Path) :
  valid_name (name d) = true → parent (rebased (Some D) d) = of_string D.
Proof.
  intros H. simpl. rewrite (truediv_name _ _ H). unfold child.
  rewrite parent_snoc. by destruct (of_string D).
Qed.

(* ===================================================================== *)
(** ** The file system *)
(* ===================================================================== *)

Lemma extends_refl (s : FS) : extends s s.
Proof. by split. Qed.

Lemma extends_trans (s1 s2 s3 : FS) :
  extends s1 s2 → extends s2 s3 → extends s1 s3.
Proof.
  intros [C1 H1] [C2 H2]. split; [congruence | eauto].
Qed.

Lemma extends_keeps_dirs (s s' : FS) : extends s s' → keeps_dirs s s'.
Proof. intros [C H]. split; [done | eauto]. Qed.

Lemma walk_keeps (s s' : FS) (cs cur a : list string) :
  keeps_dirs s s' → walk s cur cs = inr a → walk s' cur cs = inr a.
Proof.
  intros [_ K]. revert cur. induction cs as [|c cs IH]; intros cur; simpl; [done |].
  destruct (lookup_node s cur) as [[|?]|] eqn:E; try done.
  rewrite (K _ E). apply IH.
Qed.

Lemma abspath_keeps (s s' : FS) (p : Path) (a : list string) :
  keeps_dirs s s' → abspath s p = inr a → abspath s' p = inr a.
Proof.
  intros K. unfold abspath. destruct K as [C K']. rewrite C.
  apply walk_keeps. by split.
Qed.

Lemma walk_app (s : FS) (cs1 cs2 cur : list string) :
  walk s cur (cs1 ++ cs2)
  = match walk s cur cs1 with
    | inl e => inl e
    | inr a => walk s a cs2
    end.
Proof.
  revert cur. induction cs1 as [|c cs1 IH]; intros cur; simpl; [done |].
  destruct (lookup_node s cur) as [[|?]|]; auto.
Qed.

Lemma fs_is_dir_spec (s : FS) (p : Path) :
  fs_is_dir s p = true ↔ ∃ a, abspath s p = inr a ∧ lookup_node s a = Some Dir.
Proof.
  unfold fs_is_dir, stat. destruct (abspath s p) as [e|a].
  - split; [done | by intros [? [? _]]].
  - destruct (lookup_node s a) as [[|?]|] eqn:E.
    + split; [eauto | done].
    + split; [done | intros [? [[= <-] ?]]; congruence].
    + split; [done | intros [? [[= <-] ?]]; congruence].
Qed.

Lemma fs_exists_spec (s : FS) (p : Path) :
  fs_exists s p = true ↔ ∃ n, stat s p = inr n.
Proof.
  unfold fs_exists. destruct (stat s p); split; eauto; [done | by intros [? ?]].
Qed.

Lemma fs_is_dir_exists (s : FS) (p : Path) :
  fs_is_dir s p = true → fs_exists s p = true.
Proof. unfold fs_is_dir, fs_exists. by destruct (stat s p). Qed.

Lemma fs_is_dir_keeps (s s' : FS) (p : Path) :
  keeps_dirs s s' → fs_is_dir s p = true → fs_is_dir s' p = true.
Proof.
  intros K. rewrite !fs_is_dir_spec. intros [a [Ha Hd]].
  exists a. split; [by eapply abspath_keeps | by apply K].
Qed.

Lemma stat_extends (s s' : FS) (p : Path) (n : node) :
  extends s s' → stat s p = inr n → stat s' p = inr n.
Proof.
  intros X. unfold stat. destruct (abspath s p) as [e|a] eqn:Ea; [done |].
  rewrite (abspath_keeps s s' p a (extends_keeps_dirs _ _ X) Ea).
  destruct (lookup_node s a) as [m|] eqn:El; [|done].
  intros [= <-]. by rewrite (proj2 X _ _ El).
Qed.

(** Whatever resolves has a parent that is a directory. *)
Lemma abspath_parent_dir (s : FS) (r : string) (ps : list string) (n : string)
    (b : list string) :
  abspath s (mkPath r (ps ++ [n])) = inr b → fs_is_dir s (mkPath r ps) = true.
Proof.
  unfold abspath. simpl. rewrite walk_app.
  destruct (walk s _ ps) as [e|a] eqn:Ea; [done |]. simpl.
  destruct (lookup_node s a) as [[|?]|] eqn:El; try done.
  intros _. apply fs_is_dir_spec. exists a. by split.
Qed.

Lemma exists_parent_is_dir (s : FS) (p : Path) :
  name p ≠ "" → fs_exists s p = true → fs_is_dir s (parent p) = true.
Proof.
  intros Hn He. destruct p as [r ps].
  pose proof (parts_parent_name _ Hn) as Hp. simpl in Hp.
  unfold fs_exists, stat in He.
  destruct (abspath s (mkPath r ps)) as [e|b] eqn:Eb; [done |].
  rewrite Hp in Eb. by apply abspath_parent_dir in Eb.
Qed.

(** Every ancestor of a directory is a directory. *)
Lemma fs_is_dir_prefix (s : FS) (r : string) (ps qs : list string) :
  fs_is_dir s (mkPath r (ps ++ qs)) = true → fs_is_dir s (mkPath r ps) = true.
Proof.
  revert ps. induction qs as [|q qs IH] using rev_ind; intros ps.
  - by rewrite app_nil_r.
  - rewrite app_assoc. intros H. apply IH.
    apply fs_is_dir_spec in H as [a [Ha _]].
    by apply abspath_parent_dir in Ha.
Qed.

(** [os.mkdir] adds one directory and disturbs nothing else. *)
Lemma os_mkdir_ok (s s' : FS) (p : Path) :
  os_mkdir s p = inr s' → extends s s' ∧ fs_is_dir s' p = true.
Proof.
  unfold os_mkdir. destruct (abspath s p) as [e|a] eqn:Ea; [done |].
  destruct (lookup_node s a) eqn:El; [done |].
  destruct (parts p) eqn:Ep; [done |]. intros [= <-].
  assert (X : extends s (set_nodes s (<[a:=Dir]> (nodes s)))).
  { split; [done |]. intros k n Hk.
    destruct k as [|c k]; [done |]. simpl in *.
    rewrite lookup_insert_ne; [done |]. intros ->. simpl in El. congruence. }
  split; [done |]. apply fs_is_dir_spec. exists a. split.
  - by apply (abspath_keeps s _ p a (extends_keeps_dirs _ _ X)).
  - destruct a; [done |]. simpl. apply lookup_insert_eq.
Qed.

Lemma mkdir_plain_spec (p : Path) (exist_ok : bool) (s s' : FS) (res : Exc + unit) :
  mkdir_plain p exist_ok s = (res, s') →
  extends s s' ∧ (res = inr tt → fs_is_dir s' p = true).
Proof.
  unfold mkdir_plain. destruct (os_mkdir s p) as [e|s1] eqn:Em.
  - destruct e; try (intros [= <- <-]; split; [apply extends_refl | done]);
      destruct (exist_ok && fs_is_dir s p) eqn:Eo; intros [= <- <-];
      (split; [apply extends_refl |]); try done;
      intros _; by apply andb_true_iff in Eo as [_ ?].
  - intros [= <- <-]. apply os_mkdir_ok in Em as [? ?]. by split.
Qed.

(** [mkdir(parents=True)] only adds directories, and when it returns the
    path is a directory. *)
Lemma mkdir_parents_spec (r : string) (rev_parts : list string) (exist_ok : bool)
    (s s' : FS) (res : Exc + unit) :
  mkdir_parents r rev_parts exist_ok s = (res, s') →
  extends s s' ∧ (res = inr tt → fs_is_dir s' (mkPath r (rev rev_parts)) = true).
Proof.
  revert exist_ok s s' res.
  induction rev_parts as [|c above IH]; intros exist_ok s s' res;
    cbn [mkdir_parents];
    destruct (os_mkdir s _) as [e|s1] eqn:Em.
  - destruct e; try (intros [= <- <-]; split; [apply extends_refl | done]);
      destruct (exist_ok && fs_is_dir s _) eqn:Eo; intros [= <- <-];
      (split; [apply extends_refl |]); try done;
      intros _; by apply andb_true_iff in Eo as [_ ?].
  - intros [= <- <-]. apply os_mkdir_ok in Em as [? ?]. by split.
  - destruct e.
    + destruct (mkdir_parents r above true s) as [[e1|[]] s1] eqn:Ep.
      * intros [= <- <-]. apply IH in Ep as [? _]. by split.
      * intros Hp. apply IH in Ep as [X1 _].
        apply mkdir_plain_spec in Hp as [X2 Hd].
        split; [by eapply extends_trans | done].
    + destruct (exist_ok && fs_is_dir s _) eqn:Eo; intros [= <- <-];
        (split; [apply extends_refl |]); try done.
      intros _. by apply andb_true_iff in Eo as [_ ?].
    + destruct (exist_ok && fs_is_dir s _) eqn:Eo; intros [= <- <-];
        (split; [apply extends_refl |]); try done.
      intros _. by apply andb_true_iff in Eo as [_ ?].
    + destruct (exist_ok && fs_is_dir s _) eqn:Eo; intros [= <- <-];
        (split; [apply extends_refl |]); try done.
      intros _. by apply andb_true_iff in Eo as [_ ?].
  - intros [= <- <-]. apply os_mkdir_ok in Em as [? ?]. by split.
Qed.

(** A successful write leaves the directories alone and the text in the
    file. *)
Lemma os_write_ok (s s' : FS) (p : Path) (content : string) :
  os_write s p content = inr s' →
  keeps_dirs s s' ∧ stat s' p = inr (File content).
Proof.
  unfold os_write. destruct (abspath s p) as [e|a] eqn:Ea; [done |].
  intros H.
  assert (Hnd : lookup_node s a ≠ Some Dir)
    by (intros E; rewrite E in H; done).
  assert (s' = set_nodes s (<[a:=File content]> (nodes s))) as ->
    by (destruct (lookup_node s a) as [[|?]|]; congruence).
  assert (K : keeps_dirs s (set_nodes s (<[a:=File content]> (nodes s)))).
  { split; [done |]. intros k Hk. destruct k as [|c k]; [done |]. simpl in *.
    rewrite lookup_insert_ne; [done |]. intros ->. by apply Hnd. }
  split; [done |]. unfold stat. rewrite (abspath_keeps _ _ _ _ K Ea).
  destruct a; [done |]. simpl. by rewrite lookup_insert_eq.
Qed.

(** A write succeeds when the parent is a directory and the target is not
    one. *)
Lemma os_write_succeeds (s : FS) (p : Path) (content : string) :
  name p ≠ "" → fs_is_dir s (parent p) = true → fs_is_dir s p = false →
  ∃ s', os_write s p content = inr s'.
Proof.
  intros Hn Hp Hd. apply fs_is_dir_spec in Hp as [a [Ha Hl]].
  destruct p as [r ps]. pose proof (parts_parent_name _ Hn) as E. simpl in E.
  unfold os_write, fs_is_dir, stat in *.
  assert (∃ b, abspath s (mkPath r ps) = inr b) as [b Hb].
  { unfold abspath in *. simpl in *. rewrite E, walk_app, Ha. simpl.
    rewrite Hl. eauto. }
  rewrite Hb in *. destruct (lookup_node s b) as [[|?]|]; eauto. done.
Qed.

Lemma lookup_node_insert_ne (s : FS) (a k : list string) (n : node) :
  k ≠ a → lookup_node (set_nodes s (<[a := n]> (nodes s))) k = lookup_node s k.
Proof.
  intros Hne. destruct k; [done |]. simpl. by rewrite lookup_insert_ne.
Qed.

(** Without [..], a path resolves to its components below the place it
    starts from. *)
Lemma walk_plain (s : FS) (cs cur b : list string) :
  Forall (λ c, c ≠ "..") cs → walk s cur cs = inr b → b = (cur ++ cs)%list.
Proof.
  revert cur. induction cs as [|c cs IH]; intros cur Hcs; simpl.
  - intros [= <-]. by rewrite app_nil_r.
  - apply Forall_cons in Hcs as [Hc Hcs].
    destruct (lookup_node s cur) as [[|?]|]; try done.
    apply String.eqb_neq in Hc. rewrite Hc. intros H.
    apply (IH _ Hcs) in H. by rewrite H, <- app_assoc.
Qed.

Lemma fs_is_dir_plain (s : FS) (r : string) (ps : list string) :
  Forall (λ c, c ≠ "..") ps → fs_is_dir s (mkPath r ps) = true →
  abspath s (mkPath r ps) = inr (anchor s r ++ ps)%list
  ∧ lookup_node s (anchor s r ++ ps) = Some Dir.
Proof.
  intros Hps H. apply fs_is_dir_spec in H as [a [Ha Hl]].
  pose proof Ha as Hb. unfold abspath in Hb. cbn [root parts] in Hb.
  apply (walk_plain _ _ _ _ Hps) in Hb. fold (anchor s r) in Hb.
  by subst a.
Qed.

(** [os.mkdir] of a free name in a directory. *)
Lemma os_mkdir_below (s : FS) (r : string) (ps : list string) (n : string) :
  Forall (λ c, c ≠ "..") ps → n ≠ ".." →
  fs_is_dir s (mkPath r ps) = true →
  lookup_node s (anchor s r ++ ps ++ [n]) = None →
  os_mkdir s (mkPath r (ps ++ [n]))
  = inr (set_nodes s (<[(anchor s r ++ ps ++ [n])%list := Dir]> (nodes s))).
Proof.
  intros Hps Hn Hdir Hfree.
  destruct (fs_is_dir_plain _ _ _ Hps Hdir) as [Ha Hl].
  unfold os_mkdir, abspath in *. cbn [root parts] in *.
  rewrite walk_app, Ha. simpl. rewrite Hl.
  apply String.eqb_neq in Hn. rewrite Hn, <- app_assoc, Hfree.
  by destruct ps.
Qed.

(** The first call of [mkdir(parents=True)] fails for want of a parent
    when two components or more are missing. *)
Lemma os_mkdir_parent_missing (s : FS) (r : string) (ps : list string)
    (m n : string) (qs : list string) :
  Forall (λ c, c ≠ "..") ps → m ≠ ".." →
  fs_is_dir s (mkPath r ps) = true →
  lookup_node s (anchor s r ++ ps ++ [m]) = None →
  os_mkdir s (mkPath r (ps ++ m :: n :: qs)) = inl ENOENT.
Proof.
  intros Hps Hm Hdir Hfree.
  destruct (fs_is_dir_plain _ _ _ Hps Hdir) as [Ha Hl].
  unfold os_mkdir, abspath in *. cbn [root parts] in *.
  rewrite walk_app, Ha. simpl. rewrite Hl.
  apply String.eqb_neq in Hm. by rewrite Hm, <- app_assoc, Hfree.
Qed.

(** [mkdir(parents=True)] makes a creatable directory: it returns, and
    the only places it has touched are those of the missing components. *)
Lemma mkdir_parents_creates (s : FS) (r : string) (above missing : list string)
    (exist_ok : bool) :
  missing ≠ [] →
  Forall (λ c, c ≠ "..") (above ++ missing) →
  fs_is_dir s (mkPath r above) = true →
  (∀ j, (0 < j ≤ length missing)%nat →
        lookup_node s (anchor s r ++ above ++ take j missing) = None) →
  ∃ s', mkdir_parents r (rev (above ++ missing)) exist_ok s = (inr tt, s')
        ∧ ∀ k, (∀ j, (0 < j ≤ length missing)%nat →
                     k ≠ (anchor s r ++ above ++ take j missing)%list) →
               lookup_node s' k = lookup_node s k.
Proof.
  revert exist_ok.
  induction missing as [|n m IH] using rev_ind; intros exist_ok Hne Hplain Hdir Hfree;
    [done |].
  apply Forall_app in Hplain as [Hab Hmn].
  apply Forall_app in Hmn as [Hm Hn]. apply Forall_cons in Hn as [Hn _].
  assert (Hlast : take (length (m ++ [n])) (m ++ [n]) = (m ++ [n])%list)
    by apply firstn_all.
  assert (Hlen : length (m ++ [n]) = S (length m))
    by (rewrite length_app; simpl; lia).
  assert (Htake : ∀ j, (j ≤ length m)%nat → take j (m ++ [n]) = take j m)
    by (intros j Hj; by apply take_app_le).
  destruct m as [|m1 m'].
  - (* one component is missing *)
    simpl app in *. rewrite rev_unit. cbn [mkdir_parents].
    replace (rev (n :: rev above)) with (above ++ [n])%list
      by (simpl; by rewrite rev_involutive).
    rewrite (os_mkdir_below s r above n Hab Hn Hdir (Hfree 1%nat ltac:(simpl; lia))).
    eexists. split; [done |]. intros k Hk.
    apply lookup_node_insert_ne. apply (Hk 1%nat). simpl. lia.
  - (* the parent is missing too *)
    assert (Hm1 : m1 ≠ "..") by (by apply Forall_cons in Hm as [? _]).
    rewrite app_assoc, rev_unit. cbn [mkdir_parents].
    replace (rev (n :: rev (above ++ m1 :: m')))
      with (above ++ m1 :: (m' ++ [n]))%list
      by (simpl; by rewrite rev_involutive, <- app_assoc).
    assert (Hfirst : os_mkdir s (mkPath r (above ++ m1 :: (m' ++ [n]))) = inl ENOENT).
    { destruct (m' ++ [n])%list as [|c cs] eqn:E; [by destruct m' |].
      apply (os_mkdir_parent_missing s r above m1 c cs Hab Hm1 Hdir).
      apply (Hfree 1%nat). rewrite Hlen. lia. }
    rewrite Hfirst.
    destruct (IH true) as (s1 & Hs1 & Hk1).
    { done. }
    { apply Forall_app. by split. }
    { done. }
    { intros j Hj. rewrite <- (Htake j) by lia. apply Hfree. rewrite Hlen. lia. }
    rewrite Hs1.
    pose proof (mkdir_parents_spec _ _ _ _ _ _ Hs1) as [[Hcwd _] Hd1].
    specialize (Hd1 eq_refl). rewrite rev_involutive in Hd1.
    assert (Hanchor : anchor s1 r = anchor s r) by (unfold anchor; by rewrite Hcwd).
    assert (Hfree1 : lookup_node s1 (anchor s1 r ++ (above ++ m1 :: m') ++ [n]) = None).
    { rewrite Hanchor, Hk1.
      - rewrite <- (app_assoc above). rewrite <- Hlast at 1. apply Hfree. lia.
      - intros j Hj E. apply (f_equal length) in E.
        pose proof (firstn_le_length j (m1 :: m')) as Hle.
        rewrite !length_app in E. simpl in E, Hle, Hj. lia. }
    unfold mkdir_plain.
    replace (above ++ m1 :: (m' ++ [n]))%list
      with ((above ++ m1 :: m') ++ [n])%list by (by rewrite <- app_assoc).
    rewrite (os_mkdir_below s1 r (above ++ m1 :: m') n
               ltac:(apply Forall_app; by split) Hn Hd1 Hfree1).
    eexists. split; [done |]. intros k Hk.
    rewrite lookup_node_insert_ne.
    + apply Hk1. intros j Hj. rewrite <- (Htake j) by lia. apply Hk. lia.
    + rewrite Hanchor, <- (app_assoc above). rewrite <- Hlast at 1.
      apply Hk. lia.
Qed.

(** A creatable directory is not there yet. *)
Lemma creatable_missing (s : FS) (dir : Path) (above missing : list string) :
  creatable s dir above missing → fs_exists s dir = false.
Proof.
  intros (Hparts & Hne & Hplain & _ & Hfree).
  unfold fs_exists, stat. destruct (abspath s dir) as [e|b] eqn:Eb; [done |].
  unfold abspath in Eb. apply (walk_plain _ _ _ _ Hplain) in Eb.
  fold (anchor s (root dir)) in Eb. subst b.
  rewrite Hparts, <- (firstn_all missing).
  rewrite (Hfree (length missing)); [done |].
  destruct missing; [done |]. simpl. lia.
Qed.

(** The checked write is the plain one below a directory. *)
Lemma checked_write_ok (s s' : FS) (p : Path) (content : string) :
  checked_write s p content = inr s' →
  fs_is_dir s (parent p) = true ∧ os_write s p content = inr s'.
Proof.
  unfold checked_write. destruct (fs_is_dir s (parent p)); [|done]. simpl.
  destruct (os_write s p content); [done |]. by intros [= ->].
Qed.

Lemma checked_write_dir (s : FS) (p : Path) (content : string) :
  fs_is_dir s (parent p) = true →
  checked_write s p content
  = match os_write s p content with
    | inr s' => inr s'
    | inl e => inl (OSError e p)
    end.
Proof. intros H. unfold checked_write. by rewrite H. Qed.

(* ===================================================================== *)
(** ** Running the primitives *)
(* ===================================================================== *)

Lemma logged_logged (w : World) (cs1 cs2 : list call) :
  logged (logged w cs1) cs2 = logged w (cs1 ++ cs2).
Proof. unfold logged. simpl. by rewrite app_assoc. Qed.

Lemma bind_run {A B} (m : M A) (k : A → M B) (w : World) :
  (m ≫= k) w
  = match m w with
    | (inr x, w') => k x w'
    | (inl e, w') => (inl e, w')
    end.
Proof. reflexivity. Qed.

Lemma Path_exists_run (p : Path) (w : World) :
  Path_exists p w = (inr (fs_exists (fs w) p), logged w [Exists p]).
Proof. reflexivity. Qed.

Lemma Path_is_dir_run (p : Path) (w : World) :
  Path_is_dir p w
  = (inr (fs_is_dir (fs w) p), logged w [IsDir p (fs_is_dir (fs w) p)]).
Proof. reflexivity. Qed.

Lemma Path_mkdir_parents_run (p : Path) (w : World) :
  Path_mkdir p true false w
  = let '(res, s) := mkdir_parents (root p) (rev (parts p)) false (fs w) in
    (res, mkWorld s (trace w ++ [Mkdir p])).
Proof. reflexivity. Qed.

Section ConverterProperties.

Context {ext : Externals}.

Lemma registered (fmt : string) (conv : Path → Conversion.t Table) :
  FORMATS !! fmt = Some conv → fmt = "csv" ∧ conv = CSVConversion.
Proof.
  unfold FORMATS. intros H. apply lookup_singleton_Some in H.
  by destruct H as [<- <-].
Qed.

(** The default destination of a registered strategy ends in a proper
    component. *)
Lemma default_destination (fmt : string) (conv : Path → Conversion.t Table)
    (src d : Path) :
  FORMATS !! fmt = Some conv → Conversion.dstfile (conv src) = inr d →
  valid_name (name d) = true
  ∧ d = mkPath (root src) (removelast (parts src) ++ [stem src +:+ ".csv"]).
Proof.
  intros Hreg. apply registered in Hreg as [_ ->]. simpl. unfold with_name.
  destruct (String.eqb (name src) ""); [done |].
  destruct (valid_name (stem src +:+ ".csv")) eqn:E; [|done]. simpl.
  intros [= <-]. by rewrite name_snoc.
Qed.

Lemma read_hdf_run (p : Path) (w : World) :
  read_hdf p w
  = (match stat (fs w) p with
     | inr (File content) => parse_hdf content
     | inr Dir => inl (OSError EISDIR p)
     | inl e => inl (OSError e p)
     end, logged w [ReadHdf p]).
Proof.
  unfold read_hdf, mbind, M_bind, bind, syscall, log, lift. simpl.
  destruct (stat (fs w) p) as [e|[|c]]; try done.
  by destruct (parse_hdf c).
Qed.

Lemma to_csv_run (tab : Table) (p : Path) (w : World) :
  to_csv tab p w
  = match checked_write (fs w) p (csv_text tab) with
    | inr s' => (inr tt, mkWorld s' (trace w ++ [ToCsv p]))
    | inl e => (inl e, logged w [ToCsv p])
    end.
Proof.
  unfold to_csv, mbind, M_bind, bind, on_fs, log. simpl.
  by destruct (checked_write (fs w) p (csv_text tab)).
Qed.

(** The load and the write of the CSV strategy, case by case. *)
Lemma load_and_write_run (src0 src dst : Path) (w : World) :
  load_and_write (CSVConversion src0) src dst w
  = match stat (fs w) src with
    | inr (File content) =>
        match parse_hdf content with
        | inr tab =>
            match checked_write (fs w) dst (csv_text tab) with
            | inr s' => (inr (Result.success dst),
                         mkWorld s' (trace w ++ [ReadHdf src; ToCsv dst]))
            | inl e => (inl e, logged w [ReadHdf src; ToCsv dst])
            end
        | inl e => (inl e, logged w [ReadHdf src])
        end
    | inr Dir => (inl (OSError EISDIR src), logged w [ReadHdf src])
    | inl e => (inl (OSError e src), logged w [ReadHdf src])
    end.
Proof.
  unfold load_and_write. rewrite bind_run, read_hdf_run.
  destruct (stat (fs w) src) as [e|[|c]]; try done.
  destruct (parse_hdf c) as [e|tab]; [done |].
  rewrite bind_run. simpl Conversion.convert. rewrite to_csv_run. simpl fs.
  destruct (checked_write (fs w) dst (csv_text tab)); unfold logged; simpl;
    by rewrite <- app_assoc.
Qed.

(** [convert] for a registered format, as a function of the world. *)
Lemma convert_registered (w : World) (src : Path) (fmt : string)
    (conv : Path → Conversion.t Table) (dstdir : option string)
    (overwrite : bool) (d : Path) :
  FORMATS !! fmt = Some conv → Conversion.dstfile (conv src) = inr d →
  let dst := rebased dstdir d in
  convert src fmt dstdir overwrite w
  = guard (on_exception dst)
      (if fs_exists (fs w) (parent dst) then
         if fs_exists (fs w) dst && negb overwrite then
           (inr (Result.skipped dst "the converted file already exists"),
            logged w [Exists (parent dst); Exists dst])
         else
           load_and_write (conv src) src dst
             (logged w [Exists (parent dst); Exists dst])
       else
         match mkdir_parents (root (parent dst)) (rev (parts (parent dst)))
                 false (fs w) with
         | (inr _, s) =>
             load_and_write (conv src) src dst
               (mkWorld s (trace w ++ [Exists (parent dst); Mkdir (parent dst)]))
         | (inl e, s) =>
             (inl e,
              mkWorld s (trace w ++ [Exists (parent dst); Mkdir (parent dst)]))
         end).
Proof.
  intros Hreg Hd dst. unfold convert. rewrite Hreg, bind_run, Hd. simpl lift.
  unfold ret at 1. fold (rebased dstdir d). fold dst.
  unfold try_except. f_equal.
  rewrite bind_run, Path_exists_run.
  destruct (fs_exists (fs w) (parent dst)); cbn [negb]; cbv beta iota.
  - rewrite bind_run, Path_exists_run, logged_logged.
    change (fs (logged w [Exists (parent dst)])) with (fs w).
    by destruct (fs_exists (fs w) dst && negb overwrite).
  - rewrite bind_run, Path_mkdir_parents_run. simpl fs.
    destruct (mkdir_parents _ _ _ _) as [[e|[]] s]; simpl trace;
      by rewrite <- app_assoc.
Qed.

Lemma guard_on_exception (dst : Path) (outcome : (Exc + Result.t) * World) :
  guard (on_exception dst) outcome
  = match outcome with
    | (inr r, w') => (inr r, w')
    | (inl e, w') =>
        (inr (Result.failed dst ("failed to convert: " +:+ str_exc e)),
         logged w' [PrintExc e])
    end.
Proof. by destruct outcome as [[e|r] w']. Qed.

Lemma keeps_dirs_refl (s : FS) : keeps_dirs s s.
Proof. by split. Qed.

(** What the load and the write can do to the world: calls are logged,
    nothing is printed, directories stay, and the outcome is either the
    success result, with the destination written, or an exception, with
    the file system untouched. *)
Lemma load_and_write_spec (src0 src dst : Path) (w w' : World)
    (res : Exc + Result.t) :
  load_and_write (CSVConversion src0) src dst w = (res, w') →
  (∃ cs, trace w' = (trace w ++ cs)%list ∧ Forall (λ c, in_convert c = true) cs)
  ∧ keeps_dirs (fs w) (fs w')
  ∧ ((res = inr (Result.success dst)
      ∧ ∃ content tab, stat (fs w) src = inr (File content)
                       ∧ parse_hdf content = inr tab
                       ∧ os_write (fs w) dst (csv_text tab) = inr (fs w'))
     ∨ (∃ e, res = inl e ∧ fs w' = fs w)).
Proof.
  rewrite load_and_write_run.
  destruct (stat (fs w) src) as [e|[|c]] eqn:Es.
  - intros [= <- <-]. split_and!; [by eexists; split; [done | repeat constructor]
                                  | apply keeps_dirs_refl | right; eauto].
  - intros [= <- <-]. split_and!; [by eexists; split; [done | repeat constructor]
                                  | apply keeps_dirs_refl | right; eauto].
  - destruct (parse_hdf c) as [e|tab] eqn:Ep.
    + intros [= <- <-]. split_and!; [by eexists; split; [done | repeat constructor]
                                    | apply keeps_dirs_refl | right; eauto].
    + destruct (checked_write (fs w) dst (csv_text tab)) as [e|s'] eqn:Ew.
      * intros [= <- <-]. split_and!; [by eexists; split; [done | repeat constructor]
                                      | apply keeps_dirs_refl | right; eauto].
      * apply checked_write_ok in Ew as [_ Ew].
        intros [= <- <-]. simpl. split_and!.
        -- eexists; split; [done | repeat constructor].
        -- by apply os_write_ok in Ew as [? _].
        -- left. split; [done |]. by exists c, tab.
Qed.

(* =================================================================== *)
(** ** The converter *)
(* =================================================================== *)

(** C4.  For a format identifier that is not in the registry, [convert]
    raises the configuration error and has made no call at all by then:
    the file system and the trace are as they were. *)
Theorem convert_unregistered (w : World) (src : Path) (fmt : string)
    (dstdir : option string) (overwrite : bool) :
  FORMATS !! fmt = None →
  convert src fmt dstdir overwrite w
  = (inl (KeyError ("file format not found: '" +:+ fmt +:+ "'")), w).
Proof. intros Hnone. unfold convert. by rewrite Hnone. Qed.

(** The name of the destination, rebased or not, is the name the strategy
    chose. *)
Lemma destination_name (fmt : string) (conv : Path → Conversion.t Table)
    (src d : Path) (dstdir : option string) :
  FORMATS !! fmt = Some conv → Conversion.dstfile (conv src) = inr d →
  name (rebased dstdir d) ≠ "".
Proof.
  intros Hreg Hd. destruct (default_destination _ _ _ _ Hreg Hd) as [Hv _].
  rewrite (rebased_name _ _ Hv). by apply valid_name_nonempty.
Qed.

(** The branch of [convert] that returns early. *)
Lemma convert_early_return (w : World) (src : Path) (fmt : string)
    (conv : Path → Conversion.t Table) (dstdir : option string) (d : Path) :
  FORMATS !! fmt = Some conv →
  Conversion.dstfile (conv src) = inr d →
  fs_exists (fs w) (rebased dstdir d) = true →
  convert src fmt dstdir false w
  = (inr (Result.skipped (rebased dstdir d) "the converted file already exists"),
     mkWorld (fs w)
       (trace w ++ [Exists (parent (rebased dstdir d)); Exists (rebased dstdir d)])).
Proof.
  intros Hreg Hd He.
  rewrite (convert_registered w src fmt conv dstdir false d Hreg Hd).
  assert (Hp : fs_exists (fs w) (parent (rebased dstdir d)) = true).
  { apply fs_is_dir_exists, exists_parent_is_dir; [|done].
    exact (destination_name _ _ _ _ dstdir Hreg Hd). }
  by rewrite Hp, He.
Qed.


(** C9.  With [overwrite=true], [convert] never returns a skipped result:
    what it returns is a success or a failure.  (It raises only for an
    unregistered format or when the strategy has no destination for the
    source.) *)
Theorem convert_overwrite_never_skipped (w : World) (src : Path)
    (fmt : string) (dstdir : option string) :
  match (convert src fmt dstdir true w).1 with
  | inr r => Result.status r = SUCCESS ∨ Result.status r = FAILED
  | inl e => FORMATS !! fmt = None
             ∨ Conversion.dstfile (CSVConversion src) = inl e
  end.
Proof.
  destruct (FORMATS !! fmt) as [conv|] eqn:Hreg.
  - pose proof (registered _ _ Hreg) as [_ ->].
    destruct (Conversion.dstfile (CSVConversion src)) as [e|d] eqn:Hd.
    + unfold convert. rewrite Hreg, bind_run, Hd. simpl. by right.
    + rewrite (convert_registered w src fmt _ dstdir true d Hreg Hd).
      rewrite andb_false_r, guard_on_exception.
      set (dst := rebased dstdir d).
      destruct (fs_exists (fs w) (parent dst)).
      * destruct (load_and_write _ _ _ _) as [[e|r] w'] eqn:El; simpl; [by right |].
        apply load_and_write_spec in El as (_ & _ & [[[= ->] _] | [e [? _]]]);
          [by left | done].
      * destruct (mkdir_parents _ _ _ _) as [[e|[]] s]; simpl; [by right |].
        destruct (load_and_write _ _ _ _) as [[e|r] w'] eqn:El; simpl; [by right |].
        apply load_and_write_spec in El as (_ & _ & [[[= ->] _] | [e [? _]]]);
          [by left | done].
  - unfold convert. rewrite Hreg. by left.
Qed.

(** A success result means the destination holds the CSV text of the
    table that was loaded. *)
Lemma convert_success_written (w w1 : World) (src : Path) (fmt : string)
    (conv : Path → Conversion.t Table) (dstdir : option string)
    (overwrite : bool) (d : Path) (r : Result.t) :
  FORMATS !! fmt = Some conv →
  Conversion.dstfile (conv src) = inr d →
  convert src fmt dstdir overwrite w = (inr r, w1) →
  Result.status r = SUCCESS →
  r = Result.success (rebased dstdir d)
  ∧ ∃ tab, stat (fs w1) (rebased dstdir d) = inr (File (csv_text tab)).
Proof.
  intros Hreg Hd. pose proof (registered _ _ Hreg) as [_ ->].
  rewrite (convert_registered w src fmt _ dstdir overwrite d Hreg Hd).
  set (dst := rebased dstdir d).
  assert (Hlw : ∀ w0,
    guard (on_exception dst) (load_and_write (CSVConversion src) src dst w0)
      = (inr r, w1) →
    Result.status r = SUCCESS →
    r = Result.success dst
    ∧ ∃ tab, stat (fs w1) dst = inr (File (csv_text tab))).
  { intros w0. rewrite guard_on_exception.
    destruct (load_and_write _ _ _ _) as [[e|r0] w'] eqn:El;
      [by intros [= <- <-] |].
    intros [= -> ->] _.
    apply load_and_write_spec in El
      as (_ & _ & [[[= ->] (c & tab & _ & _ & Hw)] | [e [? _]]]); [|done].
    split; [done |]. exists tab. by apply os_write_ok in Hw as [_ ?]. }
  destruct (fs_exists (fs w) (parent dst)).
  - destruct (fs_exists (fs w) dst && negb overwrite).
    + by intros [= <- <-].
    + apply Hlw.
  - destruct (mkdir_parents _ _ _ _) as [[e|[]] s].
    + by intros [= <- <-].
    + apply Hlw.
Qed.

(** After a success, the same call is skipped. *)
Lemma convert_success_then_skipped (w w1 : World) (src : Path) (fmt : string)
    (conv : Path → Conversion.t Table) (dstdir : option string) (d : Path)
    (r : Result.t) :
  FORMATS !! fmt = Some conv →
  Conversion.dstfile (conv src) = inr d →
  convert src fmt dstdir false w = (inr r, w1) →
  Result.status r = SUCCESS →
  convert src fmt dstdir false w1
  = (inr (Result.skipped (rebased dstdir d) "the converted file already exists"),
     mkWorld (fs w1)
       (trace w1 ++ [Exists (parent (rebased dstdir d)); Exists (rebased dstdir d)])).
Proof.
  intros Hreg Hd Hc Hs.
  destruct (convert_success_written _ _ _ _ _ _ _ _ _ Hreg Hd Hc Hs)
    as [_ [tab Ht]].
  apply (convert_early_return w1 src fmt conv dstdir d Hreg Hd).
  apply fs_exists_spec. eauto.
Qed.

(** C3.  For a source that loads and a destination that can be written
    for the first time, running [convert] twice with [overwrite=false] and
    the same arguments gives a success and then a skip; the second run
    leaves the file system as the first one left it, with the CSV text of
    the table in the destination. *)
Theorem convert_twice (w : World) (src : Path) (fmt : string)
    (conv : Path → Conversion.t Table) (dstdir : option string) (d : Path)
    (content : string) (tab : Table) :
  FORMATS !! fmt = Some conv →
  Conversion.dstfile (conv src) = inr d →
  stat (fs w) src = inr (File content) →
  parse_hdf content = inr tab →
  destination_ready (fs w) (rebased dstdir d) →
  ∃ w1 w2,
    convert src fmt dstdir false w
    = (inr (Result.success (rebased dstdir d)), w1)
    ∧ convert src fmt dstdir false w1
      = (inr (Result.skipped (rebased dstdir d) "the converted file already exists"),
         w2)
    ∧ stat (fs w1) (rebased dstdir d) = inr (File (csv_text tab))
    ∧ fs w2 = fs w1.
Proof.
  intros Hreg Hd Hsrc Hparse [Hnew Hready]. set (dst := rebased dstdir d) in *.
  pose proof (destination_name _ _ _ _ dstdir Hreg Hd) as Hname. fold dst in Hname.
  assert (Hfirst : ∃ w1, convert src fmt dstdir false w
                         = (inr (Result.success dst), w1)
                         ∧ stat (fs w1) dst = inr (File (csv_text tab))).
  { rewrite (convert_registered w src fmt conv dstdir false d Hreg Hd). fold dst.
    pose proof (registered _ _ Hreg) as [_ ->].
    destruct Hready as [Hpar | (Hnopar & s1 & Hmk & Hnd1)].
    - assert (Hnd : fs_is_dir (fs w) dst = false).
      { destruct (fs_is_dir (fs w) dst) eqn:E; [|done].
        apply fs_is_dir_exists in E. congruence. }
      destruct (os_write_succeeds _ _ (csv_text tab) Hname Hpar Hnd) as [s' Hw].
      rewrite (fs_is_dir_exists _ _ Hpar), Hnew. simpl andb. cbv iota.
      rewrite load_and_write_run. simpl fs.
      rewrite Hsrc, Hparse, (checked_write_dir _ _ _ Hpar), Hw.
      eexists. split; [done |]. simpl. by apply os_write_ok in Hw as [_ ?].
    - rewrite Hnopar, Hmk.
      pose proof (mkdir_parents_spec _ _ _ _ _ _ Hmk) as [X Hpar].
      specialize (Hpar eq_refl). rewrite rev_involutive in Hpar.
      assert (Hpar' : fs_is_dir s1 (parent dst) = true) by (by destruct (parent dst)).
      destruct (os_write_succeeds _ _ (csv_text tab) Hname Hpar' Hnd1) as [s' Hw].
      rewrite load_and_write_run. simpl fs.
      rewrite (stat_extends _ _ _ _ X Hsrc), Hparse,
        (checked_write_dir _ _ _ Hpar'), Hw.
      eexists. split; [done |]. simpl. by apply os_write_ok in Hw as [_ ?]. }
  destruct Hfirst as (w1 & Hfirst & Hstat).
  eexists _, _. split; [exact Hfirst |]. split.
  - exact (convert_success_then_skipped _ _ _ _ _ _ _ _ Hreg Hd Hfirst eq_refl).
  - by split.
Qed.

(** The protected load and write always come back with a result for the
    destination. *)
Lemma guarded_load_and_write (src0 src dst : Path) (w0 : World) :
  ∃ r w',
    guard (on_exception dst) (load_and_write (CSVConversion src0) src dst w0)
    = (inr r, w')
    ∧ (r = Result.success dst
       ∨ ∃ e, r = Result.failed dst ("failed to convert: " +:+ str_exc e))
    ∧ (∃ cs, trace w' = (trace w0 ++ cs)%list
             ∧ Forall (λ c, in_convert c = true) cs)
    ∧ keeps_dirs (fs w0) (fs w').
Proof.
  rewrite guard_on_exception.
  destruct (load_and_write _ _ _ _) as [[e|r] w'] eqn:El;
    apply load_and_write_spec in El as ([cs [Ht Hcs]] & Hk & Hres).
  - eexists _, _. split; [done |]. split; [right; eauto |]. split; [|done].
    exists (cs ++ [PrintExc e])%list. simpl. rewrite Ht, <- app_assoc.
    split; [done |]. apply Forall_app. split; [done | by repeat constructor].
  - eexists _, _. split; [done |].
    destruct Hres as [[[= ->] _] | [e [? _]]]; [|done].
    split; [by left |]. split; [by exists cs | done].
Qed.

(** For a registered format and a source the strategy has a destination
    for, [convert] returns a result: a success without message, or a skip
    or failure with one.  It prints nothing itself. *)
Lemma convert_returns (w : World) (src : Path) (fmt : string)
    (conv : Path → Conversion.t Table) (dstdir : option string)
    (overwrite : bool) (d : Path) :
  FORMATS !! fmt = Some conv →
  Conversion.dstfile (conv src) = inr d →
  ∃ r w',
    convert src fmt dstdir overwrite w = (inr r, w')
    ∧ (r = Result.success (rebased dstdir d)
       ∨ r = Result.skipped (rebased dstdir d) "the converted file already exists"
       ∨ ∃ e, r = Result.failed (rebased dstdir d)
                    ("failed to convert: " +:+ str_exc e))
    ∧ ∃ cs, trace w' = (trace w ++ cs)%list
            ∧ Forall (λ c, in_convert c = true) cs.
Proof.
  intros Hreg Hd. pose proof (registered _ _ Hreg) as [_ ->].
  rewrite (convert_registered w src fmt _ dstdir overwrite d Hreg Hd).
  set (dst := rebased dstdir d).
  destruct (fs_exists (fs w) (parent dst)).
  - destruct (fs_exists (fs w) dst && negb overwrite).
    + eexists _, _. split; [done |]. split; [by right; left |].
      eexists. split; [done | by repeat constructor].
    + destruct (guarded_load_and_write src src dst
                  (logged w [Exists (parent dst); Exists dst]))
        as (r & w' & -> & Hr & [cs [Ht Hcs]] & _).
      exists r, w'. split; [done |]. split; [tauto |].
      exists ([Exists (parent dst); Exists dst] ++ cs)%list.
      rewrite Ht. simpl trace. rewrite <- app_assoc.
      split; [done |]. apply Forall_app. split; [by repeat constructor | done].
  - destruct (mkdir_parents _ _ _ _) as [[e|[]] s].
    + simpl. eexists _, _. split; [done |]. split; [right; right; eauto |].
      eexists. simpl. rewrite <- app_assoc.
      split; [done | by repeat constructor].
    + destruct (guarded_load_and_write src src dst
                  (mkWorld s (trace w ++ [Exists (parent dst); Mkdir (parent dst)])))
        as (r & w' & -> & Hr & [cs [Ht Hcs]] & _).
      exists r, w'. split; [done |]. split; [tauto |].
      exists ([Exists (parent dst); Mkdir (parent dst)] ++ cs)%list.
      rewrite Ht. simpl trace. rewrite <- app_assoc.
      split; [done |]. apply Forall_app. split; [by repeat constructor | done].
Qed.

Lemma result_dstfile (dst : Path) (r : Result.t) :
  (r = Result.success dst
   ∨ r = Result.skipped dst "the converted file already exists"
   ∨ ∃ e, r = Result.failed dst ("failed to convert: " +:+ str_exc e)) →
  Result.dstfile r = to_string dst.
Proof. by intros [-> | [-> | [e ->]]]. Qed.

(** The two [print] calls of the walker write the report line. *)
Lemma print_report (child : Path) (r : Result.t) (w : World) :
  (if Result.is_success r then print Stdout (name child)
   else print Stderr
          ("***" +:+ format_message (Result.message r) +:+ ": " +:+ name child)) w
  = (inr tt, logged w [report child r]).
Proof. unfold report, print. by destruct (Result.is_success r). Qed.

(** C6.  With [dstdir=D] the destination is [D] joined with the base name
    of the strategy's default destination, so its parent is [D] and not
    the directory of the source; and when [D] does not exist,
    [mkdir(parents=True)] is run on it: if that returns, [D] and every
    directory on the way to it exist afterwards, and if it raises, the
    result is the failure carrying that exception.  It does return when
    [D] is creatable, that is, missing below an existing directory with
    nothing in the way: then, after [convert], [D] and every directory on
    the way to it are there. *)
Theorem convert_into_dstdir (w : World) (src : Path) (fmt : string)
    (conv : Path → Conversion.t Table) (D : string) (overwrite : bool)
    (d : Path) :
  FORMATS !! fmt = Some conv →
  Conversion.dstfile (conv src) = inr d →
  let dir := of_string D in
  let dst := truediv dir (name d) in
  root dst = root dir
  ∧ parts dst = (parts dir ++ [name d])%list
  ∧ parent dst = dir
  ∧ ∃ r w',
      convert src fmt (Some D) overwrite w = (inr r, w')
      ∧ Result.dstfile r = to_string dst
      ∧ (fs_exists (fs w) dir = false →
         match mkdir_parents (root dir) (rev (parts dir)) false (fs w) with
         | (inr _, _) =>
             ∀ ps qs, parts dir = (ps ++ qs)%list →
                      fs_is_dir (fs w') (mkPath (root dir) ps) = true
         | (inl e, _) =>
             r = Result.failed dst ("failed to convert: " +:+ str_exc e)
         end)
      ∧ (∀ above missing, creatable (fs w) dir above missing →
           fs_exists (fs w) dir = false
           ∧ (∃ s1, mkdir_parents (root dir) (rev (parts dir)) false (fs w)
                    = (inr tt, s1))
           ∧ ∀ ps qs, parts dir = (ps ++ qs)%list →
                      fs_is_dir (fs w') (mkPath (root dir) ps) = true).
Proof.
  intros Hreg Hd dir dst.
  destruct (default_destination _ _ _ _ Hreg Hd) as [Hv _].
  assert (Hdst : dst = child dir (name d)) by apply (truediv_name _ _ Hv).
  assert (Hpar : parent dst = dir).
  { rewrite Hdst. unfold child. rewrite parent_snoc. by destruct dir. }
  split; [by rewrite Hdst |]. split; [by rewrite Hdst |]. split; [done |].
  assert (Hmk : ∀ above missing, creatable (fs w) dir above missing →
    ∃ s1, mkdir_parents (root dir) (rev (parts dir)) false (fs w) = (inr tt, s1)).
  { intros above missing (Hparts & Hne & Hplain & Hdir & Hfree).
    rewrite Hparts in Hplain |- *.
    destruct (mkdir_parents_creates (fs w) (root dir) above missing false
                Hne Hplain Hdir Hfree) as (s1 & Hs1 & _).
    eauto. }
  pose proof (registered _ _ Hreg) as [_ ->].
  rewrite (convert_registered w src fmt _ (Some D) overwrite d Hreg Hd).
  change (rebased (Some D) d) with dst. rewrite Hpar.
  destruct (fs_exists (fs w) dir) eqn:Edir.
  - destruct (convert_returns w src fmt _ (Some D) overwrite d Hreg Hd)
      as (r & w' & Hc & Hr & _).
    rewrite (convert_registered w src fmt _ (Some D) overwrite d Hreg Hd) in Hc.
    change (rebased (Some D) d) with dst in Hc, Hr. rewrite Hpar, Edir in Hc.
    exists r, w'. split; [done |]. split; [by apply result_dstfile |].
    split; [done |]. intros above missing Hcr.
    apply creatable_missing in Hcr. congruence.
  - destruct (mkdir_parents (root dir) (rev (parts dir)) false (fs w))
      as [[e|[]] s] eqn:Em.
    + simpl. eexists _, _. split; [done |]. split; [done |]. split; [done |].
      intros above missing Hcr. by destruct (Hmk _ _ Hcr).
    + apply mkdir_parents_spec in Em as [_ Hisdir].
      specialize (Hisdir eq_refl). rewrite rev_involutive in Hisdir.
      destruct (guarded_load_and_write src src dst
                  (mkWorld s (trace w ++ [Exists dir; Mkdir dir])))
        as (r & w' & -> & Hr & _ & Hk).
      assert (Hall : ∀ ps qs, parts dir = (ps ++ qs)%list →
                              fs_is_dir (fs w') (mkPath (root dir) ps) = true).
      { intros ps qs Hps. apply (fs_is_dir_prefix _ _ ps qs).
        rewrite <- Hps. apply (fs_is_dir_keeps _ _ _ Hk). simpl.
        by destruct dir. }
      exists r, w'. split; [done |]. split; [apply result_dstfile; tauto |].
      split; [done |]. intros above missing Hcr. split; [done |].
      split; [|done]. destruct (Hmk _ _ Hcr) as [s1 ?]. eauto.
Qed.

(** C5, as the code has it.  The creation of the destination's parent
    directory is inside the protected suite, like the load and the write.
    For a registered format and a source the strategy has a destination
    for (a path with a file name), [convert] returns a result; when
    [mkdir(parents=True)] raises, and when the load or the write raises,
    that result is the failure carrying the exception, after the trace
    has been printed; and a non-directory entry never stops the walk,
    which goes on to the remaining entries. *)
Theorem convert_captures_failures (w : World) (src : Path) (fmt : string)
    (conv : Path → Conversion.t Table) (dstdir : option string)
    (overwrite : bool) (d : Path) :
  FORMATS !! fmt = Some conv →
  Conversion.dstfile (conv src) = inr d →
  let dst := rebased dstdir d in
  (∃ r w', convert src fmt dstdir overwrite w = (inr r, w'))
  ∧ (∀ e s,
       fs_exists (fs w) (parent dst) = false →
       mkdir_parents (root (parent dst)) (rev (parts (parent dst))) false (fs w)
         = (inl e, s) →
       convert src fmt dstdir overwrite w
       = (inr (Result.failed dst ("failed to convert: " +:+ str_exc e)),
          mkWorld s (trace w ++ [Exists (parent dst); Mkdir (parent dst);
                                 PrintExc e])))
  ∧ (∀ e w',
       fs_exists (fs w) (parent dst) = true →
       fs_exists (fs w) dst && negb overwrite = false →
       load_and_write (conv src) src dst
         (logged w [Exists (parent dst); Exists dst]) = (inl e, w') →
       convert src fmt dstdir overwrite w
       = (inr (Result.failed dst ("failed to convert: " +:+ str_exc e)),
          logged w' [PrintExc e]))
  ∧ (∀ recurse rest,
       fs_is_dir (fs w) src = false →
       ∃ w', for_each (src :: rest) (visit fmt dstdir overwrite recurse) w
             = for_each rest (visit fmt dstdir overwrite recurse) w').
Proof.
  intros Hreg Hd dst. split_and!.
  - destruct (convert_returns w src fmt conv dstdir overwrite d Hreg Hd)
      as (r & w' & Hc & _). eauto.
  - intros e s Hne Hm.
    rewrite (convert_registered w src fmt conv dstdir overwrite d Hreg Hd).
    fold dst. rewrite Hne, Hm, guard_on_exception. unfold logged.
    cbn [fs trace]. by rewrite <- app_assoc.
  - intros e w' Hp Hn Hl.
    rewrite (convert_registered w src fmt conv dstdir overwrite d Hreg Hd).
    fold dst. by rewrite Hp, Hn, Hl, guard_on_exception.
  - intros recurse rest Hnd. cbn [for_each]. rewrite bind_run.
    unfold visit at 1. rewrite bind_run, Path_is_dir_run, Hnd.
    destruct (is_DLC_output src); [|by eexists].
    rewrite bind_run.
    destruct (convert_returns (logged w [IsDir src false]) src fmt conv dstdir
                overwrite d Hreg Hd) as (r & w' & -> & _).
    rewrite print_report. by eexists.
Qed.

(* =================================================================== *)
(** ** The walker *)
(* =================================================================== *)




Lemma is_print_report (child : Path) (r : Result.t) :
  is_print (report child r) = true.
Proof. unfold report. by destruct (Result.is_success r). Qed.


(** The whole walk.  [convert] makes neither of the walker's calls, so in
    the calls of a visit the lines printed and the files matched go one to
    one; this carries over to the loop and to the recursion. *)
Lemma balanced_app (cs1 cs2 : list call) :
  balanced cs1 → balanced cs2 → balanced (cs1 ++ cs2).
Proof.
  unfold balanced. intros H1 H2. rewrite !filter_app, !length_app. lia.
Qed.

Lemma balanced_in_convert (cs : list call) :
  Forall (λ c, in_convert c = true) cs → balanced cs.
Proof.
  unfold balanced. induction 1 as [|c cs Hc _ IH]; [done |].
  rewrite !filter_cons_False; [done | |]; by destruct c.
Qed.

Lemma convert_in_convert (w w1 : World) (src : Path) (fmt : string)
    (dstdir : option string) (overwrite : bool) (r : Result.t) :
  convert src fmt dstdir overwrite w = (inr r, w1) →
  ∃ cs, trace w1 = (trace w ++ cs)%list ∧ Forall (λ c, in_convert c = true) cs.
Proof.
  destruct (FORMATS !! fmt) as [conv|] eqn:Hreg.
  - destruct (Conversion.dstfile (conv src)) as [e|d] eqn:Hd.
    + unfold convert. by rewrite Hreg, bind_run, Hd.
    + destruct (convert_returns w src fmt conv dstdir overwrite d Hreg Hd)
        as (r' & w' & -> & _ & Hcs). by intros [= <- <-].
  - unfold convert. by rewrite Hreg.
Qed.

Lemma visit_balanced (fmt : string) (dstdir : option string) (overwrite : bool)
    (recurse : Path → M unit) :
  (∀ p w w', recurse p w = (inr tt, w') →
             ∃ cs, trace w' = (trace w ++ cs)%list ∧ balanced cs) →
  ∀ child w w',
    visit fmt dstdir overwrite recurse child w = (inr tt, w') →
    ∃ cs, trace w' = (trace w ++ cs)%list ∧ balanced cs.
Proof.
  intros Hrec child w w'. unfold visit. rewrite bind_run, Path_is_dir_run.
  destruct (fs_is_dir (fs w) child) eqn:Edir.
  - intros Hr. apply Hrec in Hr as (cs & Ht & Hb).
    exists ([IsDir child true] ++ cs)%list. split.
    + rewrite Ht. simpl. by rewrite <- app_assoc.
    + by apply balanced_app.
  - destruct (is_DLC_output child) eqn:Em.
    + rewrite bind_run.
      destruct (convert _ _ _ _ _) as [[e|r] w1] eqn:Hc; [done |].
      rewrite print_report. intros [= <-].
      apply convert_in_convert in Hc as (cs & Ht & Hcs).
      exists ([IsDir child false] ++ cs ++ [report child r])%list. split.
      * simpl. rewrite Ht. simpl. by rewrite <- !app_assoc.
      * unfold balanced. rewrite !filter_app, !length_app.
        pose proof (balanced_in_convert _ Hcs) as Hq. unfold balanced in Hq.
        rewrite Hq, !filter_cons, !filter_nil. cbn [is_print matched_probe].
        rewrite Em, is_print_report.
        assert (matched_probe (report child r) = false) as ->
          by (unfold report; by destruct (Result.is_success r)).
        repeat case_decide; try done; simpl; lia.
    + intros [= <-]. exists [IsDir child false]. split; [done |].
      unfold balanced. rewrite !filter_cons, !filter_nil.
      cbn [is_print matched_probe]. rewrite Em. by repeat case_decide.
Qed.

Lemma for_each_balanced {A} (body : A → M unit) :
  (∀ x w w', body x w = (inr tt, w') →
             ∃ cs, trace w' = (trace w ++ cs)%list ∧ balanced cs) →
  ∀ xs w w',
    for_each xs body w = (inr tt, w') →
    ∃ cs, trace w' = (trace w ++ cs)%list ∧ balanced cs.
Proof.
  intros Hbody xs. induction xs as [|x xs IH]; intros w w'; cbn [for_each].
  - intros [= <-]. exists []. split; [by rewrite app_nil_r | done].
  - rewrite bind_run. destruct (body x w) as [[e|[]] w1] eqn:Hb; [done |].
    intros Hrest. apply Hbody in Hb as (cs1 & Ht1 & Hb1).
    apply IH in Hrest as (cs2 & Ht2 & Hb2).
    exists (cs1 ++ cs2)%list. split; [by rewrite Ht2, Ht1, app_assoc |].
    by apply balanced_app.
Qed.

(** X13.  A walk that comes back has printed exactly one line for every
    file it found that the classifier matches: in the calls it made, the
    [print]s and the [is_dir] probes that answered no on a matching path
    are equally many. *)
Lemma walk_balanced (fmt : string) (dstdir : option string) (overwrite : bool)
    (depth : nat) :
  ∀ current w w',
    _recurse_single fmt dstdir overwrite depth current w = (inr tt, w') →
    ∃ cs, trace w' = (trace w ++ cs)%list ∧ balanced cs.
Proof.
  induction depth as [|depth IH]; intros current w w'; cbn [_recurse_single];
    [done |].
  rewrite bind_run. unfold Path_iterdir at 1. rewrite bind_run. simpl.
  rewrite bind_run. unfold syscall at 1. simpl.
  destruct (os_listdir (fs w) current) as [e|names]; [done |]. simpl.
  intros Hloop.
  apply (for_each_balanced _ (visit_balanced _ _ _ _ IH)) in Hloop
    as (cs & Ht & Hb).
  exists ([Iterdir current] ++ cs)%list. split.
  - rewrite Ht. simpl. by rewrite <- app_assoc.
  - apply balanced_app; [done | done].
Qed.

End ConverterProperties.

(* ===================================================================== *)
(** ** More on the file system *)
(* ===================================================================== *)

(** The key a path with a proper last component resolves to ends in that
    component. *)
Lemma abspath_snoc (s : FS) (r : string) (ps : list string) (n : string)
    (b : list string) :
  abspath s (mkPath r (ps ++ [n])) = inr b → n ≠ ".." →
  ∃ a, b = (a ++ [n])%list.
Proof.
  unfold abspath. simpl. rewrite walk_app.
  destruct (walk s _ ps) as [e|a]; [done |]. simpl.
  destruct (lookup_node s a) as [[|?]|]; try done.
  intros [= <-] Hn. apply String.eqb_neq in Hn. rewrite Hn. eauto.
Qed.

Lemma os_write_inv (s s' : FS) (p : Path) (content : string) :
  os_write s p content = inr s' →
  ∃ a, abspath s p = inr a
       ∧ lookup_node s a ≠ Some Dir
       ∧ s' = set_nodes s (<[a := File content]> (nodes s)).
Proof.
  unfold os_write. destruct (abspath s p) as [e|a]; [done |].
  intros H. exists a. split; [done |].
  destruct (lookup_node s a) as [[|?]|]; try done;
    (split; [done | congruence]).
Qed.

(** [mkdir] brings nothing but directories. *)
Lemma os_mkdir_adds_dir (s s' : FS) (p : Path) :
  os_mkdir s p = inr s' →
  ∀ k n, lookup_node s' k = Some n → lookup_node s k = Some n ∨ n = Dir.
Proof.
  unfold os_mkdir. destruct (abspath s p) as [e|a]; [done |].
  destruct (lookup_node s a) eqn:El; [done |].
  destruct (parts p); [done |]. intros [= <-] k n.
  destruct (decide (k = a)) as [-> | Hne].
  - destruct a; [done |]. simpl. rewrite lookup_insert_eq. intros [= <-]. by right.
  - rewrite lookup_node_insert_ne by done. by left.
Qed.

Lemma mkdir_plain_adds_dirs (p : Path) (exist_ok : bool) (s s' : FS)
    (res : Exc + unit) :
  mkdir_plain p exist_ok s = (res, s') →
  ∀ k n, lookup_node s' k = Some n → lookup_node s k = Some n ∨ n = Dir.
Proof.
  unfold mkdir_plain. destruct (os_mkdir s p) as [e|s1] eqn:Em.
  - destruct e; try destruct (exist_ok && fs_is_dir s p);
      intros [= <- <-]; auto.
  - intros [= <- <-]. by apply (os_mkdir_adds_dir _ _ _ Em).
Qed.

Lemma mkdir_parents_adds_dirs (r : string) (rev_parts : list string)
    (exist_ok : bool) (s s' : FS) (res : Exc + unit) :
  mkdir_parents r rev_parts exist_ok s = (res, s') →
  ∀ k n, lookup_node s' k = Some n → lookup_node s k = Some n ∨ n = Dir.
Proof.
  revert exist_ok s s' res.
  induction rev_parts as [|c above IH]; intros exist_ok s s' res;
    cbn [mkdir_parents];
    destruct (os_mkdir s _) as [e|s1] eqn:Em.
  - destruct e; try destruct (exist_ok && fs_is_dir s _);
      intros [= <- <-]; auto.
  - intros [= <- <-]. by apply (os_mkdir_adds_dir _ _ _ Em).
  - destruct e; try (destruct (exist_ok && fs_is_dir s _);
                     intros [= <- <-]; by auto).
    destruct (mkdir_parents r above true s) as [[e1|[]] s1] eqn:Ep.
    + intros [= <- <-]. by apply (IH _ _ _ _ Ep).
    + intros Hp k n Hk.
      destruct (mkdir_plain_adds_dirs _ _ _ _ _ Hp k n Hk) as [H1 | ->]; [|by right].
      by apply (IH _ _ _ _ Ep).
  - intros [= <- <-]. by apply (os_mkdir_adds_dir _ _ _ Em).
Qed.

Lemma spares_refl (s : FS) : spares s s.
Proof. by split. Qed.

Lemma spares_trans (s1 s2 s3 : FS) : spares s1 s2 → spares s2 s3 → spares s1 s3.
Proof.
  intros [C1 H1] [C2 H2]. split; [congruence |]. eauto.
Qed.

Lemma extends_spares (s s' : FS) : extends s s' → spares s s'.
Proof. intros [C H]. split; [done |]. eauto. Qed.

(* ===================================================================== *)
(** ** Printing a path and parsing it back *)
(* ===================================================================== *)

Lemma split_app_sep (c : ascii) (x rest : string) :
  Str.has_char c x = false →
  Str.split c (x +:+ String c rest) = x :: Str.split c rest.
Proof.
  induction x as [|a x IH]; simpl.
  - intros _. by rewrite Ascii.eqb_refl.
  - rewrite orb_false_iff. intros [-> H]. by rewrite (IH H).
Qed.

Lemma join_cons (x y : string) (l : list string) :
  Str.join "/" (x :: y :: l) = x +:+ String sep (Str.join "/" (y :: l)).
Proof. reflexivity. Qed.

Lemma split_join (l : list string) :
  Forall (λ x, Str.has_char sep x = false) l → l ≠ [] →
  Str.split sep (Str.join "/" l) = l.
Proof.
  induction 1 as [|x l Hx Hl IH]; [done |]. intros _.
  destruct l as [|y l].
  - simpl. by apply split_no_sep.
  - rewrite join_cons, (split_app_sep _ _ _ Hx). by rewrite IH.
Qed.

Lemma join_head (x : string) (l : list string) :
  ∃ rest, Str.join "/" (x :: l) = x +:+ rest.
Proof.
  destruct l as [|y l]; [exists ""; simpl; by rewrite append_empty_r |].
  rewrite join_cons. eauto.
Qed.

Lemma valid_name_head (x rest : string) :
  valid_name x = true →
  ∃ a t, x +:+ rest = String a t ∧ Ascii.eqb a sep = false.
Proof.
  intros H. apply valid_name_spec in H as (Hne & Hsep & _).
  destruct x as [|a x]; [done |]. simpl in *.
  apply orb_false_iff in Hsep as [Ha _]. eauto.
Qed.

Lemma filter_valid (l : list string) :
  Forall (λ n, valid_name n = true) l →
  filter (λ x, x ≠ "" ∧ x ≠ ".") l = l.
Proof.
  induction 1 as [|x l Hx _ IH]; [done |].
  apply valid_name_spec in Hx as (? & _ & ?).
  rewrite filter_cons_True by done. by rewrite IH.
Qed.

Lemma startswith_sep (a : ascii) (t : string) :
  Str.startswith "/" (String a t) = Ascii.eqb sep a.
Proof. cbn [Str.startswith]. apply andb_true_r. Qed.

Lemma lstrip_head (a : ascii) (t : string) :
  Ascii.eqb a sep = false → Str.lstrip sep (String a t) = String a t.
Proof. intros H. cbn [Str.lstrip]. by rewrite H. Qed.

Lemma lstrip_sep (t : string) :
  Str.lstrip sep (String sep t) = Str.lstrip sep t.
Proof. cbn [Str.lstrip]. by rewrite Ascii.eqb_refl. Qed.

(** Parsing what [str] prints gives the path back. *)
Lemma of_string_to_string (p : Path) : wf_path p → of_string (to_string p) = p.
Proof.
  destruct p as [r ps]. intros [Hr Hv]. unfold valid in Hv. simpl in *.
  unfold valid_root in Hr.
  assert (Hsep : Forall (λ x, Str.has_char sep x = false) ps).
  { eapply Forall_impl; [exact Hv |]. intros x Hx.
    by apply valid_name_spec in Hx as (_ & ? & _). }
  unfold to_string. simpl.
  destruct ps as [|x l].
  - apply orb_true_iff in Hr as [Hr | Hr];
      [apply orb_true_iff in Hr as [Hr | Hr] |];
      apply String.eqb_eq in Hr; subst r; reflexivity.
  - destruct (join_head x l) as [rest Hj].
    inversion Hv as [|? ? Hx _]; subst.
    destruct (valid_name_head x rest Hx) as (a & t & Hat & Ha).
    assert (Hsplit : Str.split sep (Str.join "/" (x :: l)) = x :: l)
      by (by apply split_join).
    assert (Hrel : filter (λ y, y ≠ "" ∧ y ≠ ".")
                     (Str.split sep (Str.join "/" (x :: l))) = x :: l)
      by (rewrite Hsplit; by apply filter_valid).
    assert (HJ : Str.join "/" (x :: l) = String a t) by (by rewrite Hj).
    rewrite HJ in Hrel.
    unfold of_string, splitroot.
    apply orb_true_iff in Hr as [Hr | Hr];
      [apply orb_true_iff in Hr as [Hr | Hr] |];
      apply String.eqb_eq in Hr; subst r.
    + change ("" +:+ Str.join "/" (x :: l)) with (Str.join "/" (x :: l)).
      rewrite HJ, startswith_sep, Ascii.eqb_sym, Ha.
      by rewrite Hrel.
    + change ("/" +:+ Str.join "/" (x :: l))
        with (String sep (Str.join "/" (x :: l))).
      rewrite HJ, startswith_sep, Ascii.eqb_refl, lstrip_sep.
      rewrite (lstrip_head _ _ Ha).
      unfold Str.len. destruct (_ =? 2) eqn:E; [|by rewrite Hrel].
      apply Z.eqb_eq in E. cbn [String.length] in E. lia.
    + change ("//" +:+ Str.join "/" (x :: l))
        with (String sep (String sep (Str.join "/" (x :: l)))).
      rewrite HJ, startswith_sep, Ascii.eqb_refl, !lstrip_sep.
      rewrite (lstrip_head _ _ Ha).
      unfold Str.len. destruct (_ =? 2) eqn:E; [by rewrite Hrel |].
      apply Z.eqb_neq in E. cbn [String.length] in E. lia.
Qed.

Lemma splitroot_valid (s : string) : valid_root (splitroot s).1 = true.
Proof.
  unfold splitroot. destruct (Str.startswith "/" s); [|done].
  by destruct (_ =? 2).
Qed.

Lemma of_string_wf (s : string) : wf_path (of_string s).
Proof.
  split; [|apply of_string_valid].
  unfold of_string. pose proof (splitroot_valid s) as H.
  by destruct (splitroot s).
Qed.

Lemma valid_removelast (l : list string) :
  Forall (λ n, valid_name n = true) l →
  Forall (λ n, valid_name n = true) (removelast l).
Proof.
  induction 1 as [|x l Hx Hl IH]; [constructor |].
  simpl. destruct l; [constructor | by constructor].
Qed.

(* ===================================================================== *)
(** ** More on the converter *)
(* ===================================================================== *)

Section ConverterFurther.

Context {ext : Externals}.

(** The destination, rebased or not, ends in the name the CSV strategy
    builds. *)
Lemma destination_shape (fmt : string) (conv : Path → Conversion.t Table)
    (src d : Path) (dstdir : option string) :
  FORMATS !! fmt = Some conv → Conversion.dstfile (conv src) = inr d →
  ∃ r ps, rebased dstdir d = mkPath r (ps ++ [stem src +:+ ".csv"]).
Proof.
  intros Hreg Hd. destruct (default_destination _ _ _ _ Hreg Hd) as [Hv Hshape].
  assert (Hn : name d = stem src +:+ ".csv")
    by (rewrite Hshape; apply name_snoc).
  destruct dstdir as [D|]; simpl.
  - rewrite (truediv_name _ _ Hv). unfold child. rewrite Hn. eauto.
  - rewrite Hshape. eauto.
Qed.

Lemma csv_name_not_dotdot (stem0 : string) : stem0 +:+ ".csv" ≠ "..".
Proof.
  intros E. apply (f_equal String.length) in E.
  rewrite length_append in E. simpl in E. lia.
Qed.

Lemma destination_key (fmt : string) (conv : Path → Conversion.t Table)
    (src d : Path) (dstdir : option string) (s : FS) (b : list string) :
  FORMATS !! fmt = Some conv → Conversion.dstfile (conv src) = inr d →
  abspath s (rebased dstdir d) = inr b → csv_key b.
Proof.
  intros Hreg Hd Hb.
  destruct (destination_shape _ _ _ _ dstdir Hreg Hd) as (r & ps & E).
  rewrite E in Hb.
  apply abspath_snoc in Hb as [a ->]; [|apply csv_name_not_dotdot].
  exists (stem src). apply last_last.
Qed.

(** What [convert] does to the file system, whatever it returns: it may
    create directories first, and then it either stops there or writes the
    destination. *)
Lemma convert_fs (w w' : World) (src : Path) (fmt : string)
    (conv : Path → Conversion.t Table) (dstdir : option string)
    (overwrite : bool) (d : Path) (res : Exc + Result.t) :
  FORMATS !! fmt = Some conv → Conversion.dstfile (conv src) = inr d →
  convert src fmt dstdir overwrite w = (res, w') →
  ∃ s1, extends (fs w) s1
        ∧ (∀ k n, lookup_node s1 k = Some n →
                  lookup_node (fs w) k = Some n ∨ n = Dir)
        ∧ (fs w' = s1
           ∨ ∃ content, os_write s1 (rebased dstdir d) content = inr (fs w')).
Proof.
  intros Hreg Hd. pose proof (registered _ _ Hreg) as [_ ->].
  rewrite (convert_registered w src fmt _ dstdir overwrite d Hreg Hd).
  set (dst := rebased dstdir d).
  assert (Hlw : ∀ w0 res w',
    guard (on_exception dst) (load_and_write (CSVConversion src) src dst w0)
      = (res, w') →
    fs w' = fs w0 ∨ ∃ content, os_write (fs w0) dst content = inr (fs w')).
  { intros w0 res0 w0'. rewrite guard_on_exception.
    destruct (load_and_write _ _ _ _) as [[e|r] w1] eqn:El; intros [= <- <-];
      apply load_and_write_spec in El
        as (_ & _ & [[_ (c & tab & _ & _ & Hw)] | [e' [_ Hfs]]]); simpl; eauto. }
  destruct (fs_exists (fs w) (parent dst)).
  - destruct (fs_exists (fs w) dst && negb overwrite).
    + intros [= <- <-]. exists (fs w).
      split; [apply extends_refl |]. split; [by left | by left].
    + intros Ho. exists (fs w).
      split; [apply extends_refl |]. split; [by left |]. by apply Hlw in Ho.
  - destruct (mkdir_parents _ _ _ _) as [[e|[]] s1] eqn:Em.
    + rewrite guard_on_exception. intros [= <- <-]. exists s1.
      split; [by apply mkdir_parents_spec in Em as [? _] |].
      split; [by apply (mkdir_parents_adds_dirs _ _ _ _ _ _ Em) | by left].
    + intros Ho. exists s1. split; [by apply mkdir_parents_spec in Em as [? _] |].
      split; [by apply (mkdir_parents_adds_dirs _ _ _ _ _ _ Em) |].
      by apply Hlw in Ho.
Qed.

(** When [convert] raises, nothing has happened. *)
Lemma convert_raises_early (w : World) (src : Path) (fmt : string)
    (dstdir : option string) (overwrite : bool) :
  FORMATS !! fmt = None
  ∨ (∃ e, Conversion.dstfile (CSVConversion src) = inl e) →
  (convert src fmt dstdir overwrite w).2 = w.
Proof.
  intros [Hnone | [e He]]; unfold convert.
  - by rewrite Hnone.
  - destruct (FORMATS !! fmt) as [conv|] eqn:Hreg; [|done].
    pose proof (registered _ _ Hreg) as [_ ->]. by rewrite bind_run, He.
Qed.

(** Every node is kept, except possibly a regular file where the
    destination resolves. *)
Lemma convert_frame (w w' : World) (src : Path) (fmt : string)
    (dstdir : option string) (overwrite : bool) (res : Exc + Result.t) :
  convert src fmt dstdir overwrite w = (res, w') →
  cwd (fs w') = cwd (fs w)
  ∧ ∀ k n, lookup_node (fs w) k = Some n →
      lookup_node (fs w') k = Some n
      ∨ ∃ content d,
          n = File content
          ∧ Conversion.dstfile (CSVConversion src) = inr d
          ∧ abspath (fs w') (rebased dstdir d) = inr k.
Proof.
  intros Hc.
  destruct (FORMATS !! fmt) as [conv|] eqn:Hreg.
  - pose proof (registered _ _ Hreg) as [_ ->].
    destruct (Conversion.dstfile (CSVConversion src)) as [e|d] eqn:Hd.
    + pose proof (convert_raises_early w src fmt dstdir overwrite
                    (or_intror (ex_intro _ e Hd))) as E.
      rewrite Hc in E. simpl in E. subst w'. split; [done | eauto].
    + destruct (convert_fs _ _ _ _ _ _ _ _ _ Hreg Hd Hc)
        as (s1 & [C X] & _ & [-> | [c Hw]]).
      * split; [done |]. intros k n Hk. left. by apply X.
      * pose proof (os_write_ok _ _ _ _ Hw) as [K _].
        apply os_write_inv in Hw as (a & Ha & Hnd & E).
        split; [rewrite E; simpl; done |]. intros k n Hk.
        apply X in Hk. destruct (decide (k = a)) as [-> | Hne].
        -- right. destruct n as [|c0]; [done |].
           exists c0, d. split; [done |]. split; [done |].
           by apply (abspath_keeps _ _ _ _ K).
        -- left. rewrite E. by rewrite lookup_node_insert_ne.
  - pose proof (convert_raises_early w src fmt dstdir overwrite (or_introl Hreg)) as E.
    rewrite Hc in E. simpl in E. subst w'. split; [done | eauto].
Qed.

Lemma convert_spares (w w' : World) (src : Path) (fmt : string)
    (dstdir : option string) (overwrite : bool) (res : Exc + Result.t) :
  convert src fmt dstdir overwrite w = (res, w') → spares (fs w) (fs w').
Proof.
  intros Hc. destruct (convert_frame _ _ _ _ _ _ _ Hc) as [C F].
  split; [done |]. intros k n Hk Hsp.
  destruct (F k n Hk) as [? | (c & d & -> & Hd & Ha)]; [done |].
  destruct Hsp as [? | Hncsv]; [done |]. exfalso. apply Hncsv.
  destruct (FORMATS !! fmt) as [conv|] eqn:Hreg.
  - pose proof (registered _ _ Hreg) as [_ ->].
    exact (destination_key _ _ _ _ _ _ _ Hreg Hd Ha).
  - pose proof (convert_raises_early w src fmt dstdir overwrite (or_introl Hreg)) as E.
    rewrite Hc in E. simpl in E. subst w'.
    assert (Hreg' : FORMATS !! "csv" = Some CSVConversion) by done.
    exact (destination_key _ _ _ _ _ _ _ Hreg' Hd Ha).
Qed.

Lemma csv_suffix_not_matched (p : Path) :
  suffix p = ".csv" → is_DLC_output p = false.
Proof. intros E. unfold is_DLC_output. by rewrite E. Qed.

(** X1.  What the CSV strategy produces is never taken for a DeepLabCut
    output: the classifier rejects the destination, rebased or not, so a
    walk does not pick up the files an earlier conversion has written. *)
Theorem destination_never_matched (src d : Path) (dstdir : option string) :
  Conversion.dstfile (CSVConversion src) = inr d →
  is_DLC_output d = false ∧ is_DLC_output (rebased dstdir d) = false.
Proof.
  intros Hd.
  assert (Hreg : FORMATS !! "csv" = Some CSVConversion) by done.
  destruct (default_destination _ _ _ _ Hreg Hd) as [_ Hshape].
  assert (Hs : stem src ≠ "").
  { apply stem_nonempty. intros E. simpl in Hd. unfold with_name in Hd.
    by rewrite E in Hd. }
  split; apply csv_suffix_not_matched.
  - rewrite Hshape. by apply (split_extension _ _ (stem src) "csv").
  - destruct (destination_shape _ _ _ _ dstdir Hreg Hd) as (r & ps & ->).
    by apply (split_extension _ _ (stem src) "csv").
Qed.

(** X2.  [convert] changes at most one existing node: a regular file at
    the place the destination resolves to.  Every other file and every
    directory is kept as it was, whatever the arguments and the outcome. *)
Theorem convert_touches_only_destination (w : World) (src : Path)
    (fmt : string) (dstdir : option string) (overwrite : bool)
    (k : list string) (n : node) :
  lookup_node (fs w) k = Some n →
  lookup_node (fs (convert src fmt dstdir overwrite w).2) k = Some n
  ∨ ∃ content d,
      n = File content
      ∧ Conversion.dstfile (CSVConversion src) = inr d
      ∧ abspath (fs (convert src fmt dstdir overwrite w).2) (rebased dstdir d)
        = inr k.
Proof.
  intros Hk. destruct (convert src fmt dstdir overwrite w) as [res w'] eqn:Hc.
  destruct (convert_frame _ _ _ _ _ _ _ Hc) as [_ F]. by apply F.
Qed.

(** X3.  [convert] returns the skipped result exactly when [overwrite] is
    off and the destination exists. *)
Theorem convert_skipped_iff (w w' : World) (src : Path) (fmt : string)
    (conv : Path → Conversion.t Table) (dstdir : option string)
    (overwrite : bool) (d : Path) (r : Result.t) :
  FORMATS !! fmt = Some conv →
  Conversion.dstfile (conv src) = inr d →
  convert src fmt dstdir overwrite w = (inr r, w') →
  Result.status r = SKIPPED
  ↔ overwrite = false ∧ fs_exists (fs w) (rebased dstdir d) = true.
Proof.
  intros Hreg Hd. pose proof (destination_name _ _ _ _ dstdir Hreg Hd) as Hname.
  pose proof (registered _ _ Hreg) as [_ ->].
  rewrite (convert_registered w src fmt _ dstdir overwrite d Hreg Hd).
  set (dst := rebased dstdir d) in *.
  assert (Hlw : ∀ w0,
    guard (on_exception dst) (load_and_write (CSVConversion src) src dst w0)
      = (inr r, w') → Result.status r ≠ SKIPPED).
  { intros w0 Hg.
    destruct (guarded_load_and_write src src dst w0) as (r0 & w0' & E & Hr & _).
    rewrite E in Hg. injection Hg as -> ->.
    by destruct Hr as [-> | [e ->]]. }
  destruct (fs_exists (fs w) (parent dst)) eqn:Ep.
  - destruct (fs_exists (fs w) dst) eqn:Ed, overwrite; simpl.
    + intros Hg. apply Hlw in Hg. split; [done | by intros [? _]].
    + intros [= <- <-]. done.
    + intros Hg. apply Hlw in Hg. split; [done | by intros [_ ?]].
    + intros Hg. apply Hlw in Hg. split; [done | by intros [_ ?]].
  - assert (Ed : fs_exists (fs w) dst = false).
    { destruct (fs_exists (fs w) dst) eqn:Ed; [|done].
      apply (exists_parent_is_dir _ _ Hname), fs_is_dir_exists in Ed. congruence. }
    destruct (mkdir_parents _ _ _ _) as [[e|[]] s1].
    + rewrite guard_on_exception. intros [= <- <-]. simpl.
      split; [done | intros [_ ?]; congruence].
    + intros Hg. apply Hlw in Hg. split; [done | intros [_ ?]; congruence].
Qed.

(** X4.  Whatever [convert] returns names the destination and carries a
    message exactly when it is not a success: none for a success, the fixed
    text for a skip, the exception's text after [failed to convert: ] for
    a failure.  The walker therefore never prints an absent message. *)
Theorem convert_result_shape (w w' : World) (src : Path) (fmt : string)
    (dstdir : option string) (overwrite : bool) (r : Result.t) :
  convert src fmt dstdir overwrite w = (inr r, w') →
  ∃ d, Conversion.dstfile (CSVConversion src) = inr d
       ∧ Result.dstfile r = to_string (rebased dstdir d)
       ∧ match Result.status r with
         | SUCCESS => Result.message r = None
         | SKIPPED => Result.message r = Some "the converted file already exists"
         | FAILED => ∃ e, Result.message r
                          = Some ("failed to convert: " +:+ str_exc e)
         end.
Proof.
  intros Hc. destruct (FORMATS !! fmt) as [conv|] eqn:Hreg.
  - pose proof (registered _ _ Hreg) as [_ ->].
    destruct (Conversion.dstfile (CSVConversion src)) as [e|d] eqn:Hd.
    + unfold convert in Hc. by rewrite Hreg, bind_run, Hd in Hc.
    + destruct (convert_returns w src fmt _ dstdir overwrite d Hreg Hd)
        as (r' & w1 & E & Hr & _).
      rewrite E in Hc. injection Hc as -> ->. exists d. split; [done |].
      destruct Hr as [-> | [-> | [e ->]]]; simpl; eauto.
  - unfold convert in Hc. by rewrite Hreg in Hc.
Qed.

Lemma load_and_write_loaded (src0 src dst : Path) (w : World) :
  load_and_write (CSVConversion src0) src dst w
  = match loaded (fs w) src with
    | inr tab =>
        match checked_write (fs w) dst (csv_text tab) with
        | inr s' => (inr (Result.success dst),
                     mkWorld s' (trace w ++ [ReadHdf src; ToCsv dst]))
        | inl e => (inl e, logged w [ReadHdf src; ToCsv dst])
        end
    | inl e => (inl e, logged w [ReadHdf src])
    end.
Proof.
  rewrite load_and_write_run. unfold loaded.
  destruct (stat (fs w) src) as [e|[|c]]; try done.
Qed.

Lemma os_write_eq (s : FS) (p : Path) (content : string) (a : list string) :
  abspath s p = inr a → lookup_node s a ≠ Some Dir →
  os_write s p content = inr (set_nodes s (<[a := File content]> (nodes s))).
Proof.
  intros Ha Hnd. unfold os_write. rewrite Ha.
  by destruct (lookup_node s a) as [[|?]|].
Qed.

(** X5.  When the source does not load (it is missing, it is a directory,
    or pandas rejects its content) and the destination's directory exists,
    [convert] returns the failure for that exception and leaves the file
    system as it was: [to_csv] is not called and no destination appears. *)
Theorem convert_load_failure (w : World) (src : Path) (fmt : string)
    (conv : Path → Conversion.t Table) (dstdir : option string)
    (overwrite : bool) (d : Path) (e : Exc) :
  FORMATS !! fmt = Some conv →
  Conversion.dstfile (conv src) = inr d →
  fs_exists (fs w) (parent (rebased dstdir d)) = true →
  fs_exists (fs w) (rebased dstdir d) && negb overwrite = false →
  loaded (fs w) src = inl e →
  convert src fmt dstdir overwrite w
  = (inr (Result.failed (rebased dstdir d) ("failed to convert: " +:+ str_exc e)),
     mkWorld (fs w)
       (trace w ++ [Exists (parent (rebased dstdir d)); Exists (rebased dstdir d);
                    ReadHdf src; PrintExc e])).
Proof.
  intros Hreg Hd Hp Hn Hl. pose proof (registered _ _ Hreg) as [_ ->].
  rewrite (convert_registered w src fmt _ dstdir overwrite d Hreg Hd).
  rewrite Hp, Hn, load_and_write_loaded. cbn [fs logged].
  rewrite Hl, guard_on_exception. unfold logged. cbn [fs trace].
  by rewrite <- !app_assoc.
Qed.

(** X6.  The directory is created before the source is loaded: when the
    destination's directory is missing and the source is a file pandas
    rejects, [convert] returns the failure, yet the directory has been
    created and stays; no file has been written. *)
Theorem convert_load_failure_leaves_directory (w : World) (src : Path)
    (fmt : string) (conv : Path → Conversion.t Table) (dstdir : option string)
    (overwrite : bool) (d : Path) (content : string) (e : Exc) (s1 : FS) :
  FORMATS !! fmt = Some conv →
  Conversion.dstfile (conv src) = inr d →
  fs_exists (fs w) (parent (rebased dstdir d)) = false →
  mkdir_parents (root (parent (rebased dstdir d)))
    (rev (parts (parent (rebased dstdir d)))) false (fs w) = (inr tt, s1) →
  stat (fs w) src = inr (File content) →
  parse_hdf content = inl e →
  convert src fmt dstdir overwrite w
  = (inr (Result.failed (rebased dstdir d) ("failed to convert: " +:+ str_exc e)),
     mkWorld s1
       (trace w ++ [Exists (parent (rebased dstdir d));
                    Mkdir (parent (rebased dstdir d)); ReadHdf src; PrintExc e]))
  ∧ fs_is_dir s1 (parent (rebased dstdir d)) = true
  ∧ ∀ k c, lookup_node s1 k = Some (File c) → lookup_node (fs w) k = Some (File c).
Proof.
  intros Hreg Hd Hp Hm Hs He. pose proof (registered _ _ Hreg) as [_ ->].
  pose proof (mkdir_parents_spec _ _ _ _ _ _ Hm) as [X Hdir].
  split_and!.
  - rewrite (convert_registered w src fmt _ dstdir overwrite d Hreg Hd).
    rewrite Hp, Hm, load_and_write_loaded. cbn [fs].
    unfold loaded. rewrite (stat_extends _ _ _ _ X Hs), He, guard_on_exception.
    unfold logged. cbn [fs trace]. by rewrite <- !app_assoc.
  - specialize (Hdir eq_refl). rewrite rev_involutive in Hdir.
    by destruct (parent (rebased dstdir d)).
  - intros k c Hk.
    by destruct (mkdir_parents_adds_dirs _ _ _ _ _ _ Hm k _ Hk).
Qed.

(** X7.  With [overwrite=true] a destination that is already there is
    written again: for a source that loads and is not the destination
    itself, and a destination whose directory exists and that is not itself
    a directory, two runs in a row both succeed, the second leaves the file
    system exactly as the first did, with the CSV text of the table in the
    destination, and the source is untouched. *)
Theorem convert_overwrite_twice (w : World) (src : Path) (fmt : string)
    (conv : Path → Conversion.t Table) (dstdir : option string) (d : Path)
    (content : string) (tab : Table) :
  FORMATS !! fmt = Some conv →
  Conversion.dstfile (conv src) = inr d →
  stat (fs w) src = inr (File content) →
  parse_hdf content = inr tab →
  fs_is_dir (fs w) (parent (rebased dstdir d)) = true →
  fs_is_dir (fs w) (rebased dstdir d) = false →
  abspath (fs w) src ≠ abspath (fs w) (rebased dstdir d) →
  ∃ w1 w2,
    convert src fmt dstdir true w = (inr (Result.success (rebased dstdir d)), w1)
    ∧ convert src fmt dstdir true w1
      = (inr (Result.success (rebased dstdir d)), w2)
    ∧ fs w2 = fs w1
    ∧ stat (fs w1) (rebased dstdir d) = inr (File (csv_text tab))
    ∧ stat (fs w1) src = inr (File content).
Proof.
  intros Hreg Hd Hsrc Hparse Hpar Hnd Hne. set (dst := rebased dstdir d) in *.
  pose proof (destination_name _ _ _ _ dstdir Hreg Hd) as Hname. fold dst in Hname.
  pose proof (registered _ _ Hreg) as [_ ->].
  destruct (os_write_succeeds _ _ (csv_text tab) Hname Hpar Hnd) as [s' Hw].
  pose proof (os_write_ok _ _ _ _ Hw) as [K Hdst].
  pose proof (os_write_inv _ _ _ _ Hw) as (a & Ha & Hna & Es').
  assert (Hsrc' : stat s' src = inr (File content)).
  { unfold stat in *. destruct (abspath (fs w) src) as [e|ka] eqn:Eka; [done |].
    rewrite (abspath_keeps _ _ _ _ K Eka).
    rewrite Es', lookup_node_insert_ne; [done |]. intros ->. by apply Hne. }
  assert (Hrun : ∀ w0 t, fs w0 = fs w ∨ fs w0 = s' → trace w0 = t →
    convert src fmt dstdir true w0
    = (inr (Result.success dst),
       mkWorld s' (t ++ [Exists (parent dst); Exists dst; ReadHdf src; ToCsv dst]))).
  { intros w0 t Hfs Ht.
    rewrite (convert_registered w0 src fmt _ dstdir true d Hreg Hd). fold dst.
    rewrite andb_false_r, load_and_write_loaded. cbn [fs logged]. unfold loaded.
    destruct Hfs as [-> | ->].
    - rewrite (fs_is_dir_exists _ _ Hpar), Hsrc, Hparse,
        (checked_write_dir _ _ _ Hpar), Hw, guard_on_exception.
      unfold logged. cbn [trace]. by rewrite Ht, <- app_assoc.
    - rewrite (fs_is_dir_exists _ _ (fs_is_dir_keeps _ _ _ K Hpar)), Hsrc', Hparse,
        (checked_write_dir _ _ _ (fs_is_dir_keeps _ _ _ K Hpar)).
      assert (os_write s' dst (csv_text tab) = inr s') as ->.
      { rewrite (os_write_eq s' dst _ a).
        - rewrite Es'. unfold set_nodes. cbn [cwd nodes].
          by rewrite insert_insert_eq.
        - by apply (abspath_keeps _ _ _ _ K).
        - unfold stat in Hdst. rewrite (abspath_keeps _ _ _ _ K Ha) in Hdst.
          intros E. by rewrite E in Hdst. }
      rewrite guard_on_exception. unfold logged. cbn [trace].
      by rewrite Ht, <- app_assoc. }
  eexists _, _. split; [apply (Hrun w (trace w)); auto |].
  split; [apply Hrun; [by right | done] |]. done.
Qed.

(** X8.  When [dstdir] names a regular file, nothing can be written under
    it: for a source that loads, [convert] returns the failure for the
    error pandas raises before it opens the destination, the [OSError]
    that says the destination's directory is not one and names [dstdir];
    this with or without [overwrite], and the file system is unchanged. *)
Theorem convert_dstdir_is_a_file (w : World) (src : Path) (fmt : string)
    (conv : Path → Conversion.t Table) (D : string) (overwrite : bool)
    (d : Path) (text : string) (tab : Table) :
  FORMATS !! fmt = Some conv →
  Conversion.dstfile (conv src) = inr d →
  stat (fs w) (of_string D) = inr (File text) →
  loaded (fs w) src = inr tab →
  let e := PlainOSError ("Cannot save file into a non-existent directory: '"
                         +:+ to_string (of_string D) +:+ "'") in
  convert src fmt (Some D) overwrite w
  = (inr (Result.failed (rebased (Some D) d)
            ("failed to convert: " +:+ str_exc e)),
     mkWorld (fs w)
       (trace w ++ [Exists (of_string D); Exists (rebased (Some D) d);
                    ReadHdf src; ToCsv (rebased (Some D) d); PrintExc e])).
Proof.
  intros Hreg Hd HD Hl e. pose proof (registered _ _ Hreg) as [_ ->].
  destruct (default_destination _ _ _ _ Hreg Hd) as [Hv _].
  pose proof (rebased_parent D d Hv) as Hpar.
  set (dst := rebased (Some D) d) in *.
  assert (Hab : abspath (fs w) dst = inl ENOTDIR).
  { unfold dst. simpl. rewrite (truediv_name _ _ Hv). unfold child, abspath.
    cbn [root parts]. rewrite walk_app.
    unfold stat, abspath in HD.
    destruct (walk (fs w) _ (parts (of_string D))) as [e'|a]; [done |].
    simpl. destruct (lookup_node (fs w) a) as [[|?]|]; done. }
  assert (Hnd : fs_is_dir (fs w) (of_string D) = false)
    by (unfold fs_is_dir; by rewrite HD).
  rewrite (convert_registered w src fmt _ (Some D) overwrite d Hreg Hd).
  fold dst. rewrite Hpar.
  assert (fs_exists (fs w) (of_string D) = true) as ->
    by (apply fs_exists_spec; eauto).
  assert (fs_exists (fs w) dst = false) as ->
    by (unfold fs_exists, stat; by rewrite Hab).
  simpl andb. cbv iota. rewrite load_and_write_loaded. cbn [fs logged].
  rewrite Hl. unfold checked_write. rewrite Hpar, Hnd. cbn [negb].
  rewrite guard_on_exception.
  unfold logged. cbn [fs trace]. by rewrite <- !app_assoc.
Qed.

(** X9.  With a common [dstdir], sources with the same stem share one
    destination: once the first has been converted, the second is skipped
    ([overwrite=false]) and its table is never written. *)
Theorem convert_same_stem_collides (w w1 : World) (src1 src2 : Path)
    (fmt : string) (conv : Path → Conversion.t Table) (D : string)
    (d1 d2 : Path) (r1 : Result.t) :
  FORMATS !! fmt = Some conv →
  Conversion.dstfile (conv src1) = inr d1 →
  Conversion.dstfile (conv src2) = inr d2 →
  stem src1 = stem src2 →
  convert src1 fmt (Some D) false w = (inr r1, w1) →
  Result.status r1 = SUCCESS →
  rebased (Some D) d2 = rebased (Some D) d1
  ∧ convert src2 fmt (Some D) false w1
    = (inr (Result.skipped (rebased (Some D) d1) "the converted file already exists"),
       mkWorld (fs w1)
         (trace w1 ++ [Exists (parent (rebased (Some D) d1));
                       Exists (rebased (Some D) d1)])).
Proof.
  intros Hreg Hd1 Hd2 Hstem Hc Hs.
  destruct (default_destination _ _ _ _ Hreg Hd1) as [_ E1].
  destruct (default_destination _ _ _ _ Hreg Hd2) as [_ E2].
  assert (Hn : name d2 = name d1).
  { rewrite E1, E2, !name_snoc. by rewrite Hstem. }
  assert (Hsame : rebased (Some D) d2 = rebased (Some D) d1)
    by (simpl; by rewrite Hn).
  split; [done |].
  destruct (convert_success_written _ _ _ _ _ _ _ _ _ Hreg Hd1 Hc Hs)
    as [_ [tab Ht]].
  rewrite <- Hsame.
  apply (convert_early_return w1 src2 fmt conv (Some D) d2 Hreg Hd2).
  rewrite Hsame. apply fs_exists_spec. eauto.
Qed.

Lemma rebased_wf (fmt : string) (conv : Path → Conversion.t Table)
    (src d : Path) (dstdir : option string) :
  FORMATS !! fmt = Some conv → Conversion.dstfile (conv src) = inr d →
  wf_path src → wf_path (rebased dstdir d).
Proof.
  intros Hreg Hd [Hr Hv].
  destruct (default_destination _ _ _ _ Hreg Hd) as [Hn Hshape].
  destruct dstdir as [D|]; simpl.
  - rewrite (truediv_name _ _ Hn). destruct (of_string_wf D) as [HrD HvD].
    split; [done |]. unfold valid, child. simpl.
    apply Forall_app. split; [done | by repeat constructor].
  - rewrite Hshape in Hn |- *. rewrite name_snoc in Hn.
    split; [done |]. unfold valid. simpl.
    apply Forall_app. split; [by apply valid_removelast | by repeat constructor].
Qed.

(** X14.  The destination can be read back from a result: for a source
    path as [pathlib] builds it, parsing the [dstfile] string of whatever
    [convert] returns gives the destination path again. *)
Theorem result_dstfile_round_trip (w w' : World) (src : Path) (fmt : string)
    (dstdir : option string) (overwrite : bool) (r : Result.t) :
  wf_path src →
  convert src fmt dstdir overwrite w = (inr r, w') →
  ∃ d, Conversion.dstfile (CSVConversion src) = inr d
       ∧ of_string (Result.dstfile r) = rebased dstdir d.
Proof.
  intros Hwf Hc. destruct (FORMATS !! fmt) as [conv|] eqn:Hreg.
  - pose proof (registered _ _ Hreg) as [_ ->].
    destruct (Conversion.dstfile (CSVConversion src)) as [e|d] eqn:Hd.
    + unfold convert in Hc. by rewrite Hreg, bind_run, Hd in Hc.
    + destruct (convert_returns w src fmt _ dstdir overwrite d Hreg Hd)
        as (r' & w1 & E & Hr & _).
      rewrite E in Hc. injection Hc as -> ->. exists d. split; [done |].
      rewrite (result_dstfile _ _ Hr).
      apply of_string_to_string. by apply (rebased_wf _ _ _ _ _ Hreg Hd).
  - unfold convert in Hc. by rewrite Hreg in Hc.
Qed.

(* ===================================================================== *)
(** ** More on the walker *)
(* ===================================================================== *)

(** A relation between file systems that every [convert] respects is
    respected by the loop body, the loop and the recursion, whatever they
    return. *)
Lemma for_each_fs {A} (R : FS → FS → Prop) (body : A → M unit) :
  (∀ s, R s s) → (∀ a b c, R a b → R b c → R a c) →
  (∀ x w, R (fs w) (fs (body x w).2)) →
  ∀ xs w, R (fs w) (fs (for_each xs body w).2).
Proof.
  intros Hrefl Htrans Hbody xs. induction xs as [|x xs IH]; intros w;
    cbn [for_each]; [apply Hrefl |].
  rewrite bind_run. specialize (Hbody x w).
  destruct (body x w) as [[e|[]] w1]; [done |].
  apply (Htrans _ (fs w1)); [done | apply IH].
Qed.

Lemma visit_fs (R : FS → FS → Prop) (fmt : string) (dstdir : option string)
    (overwrite : bool) (recurse : Path → M unit) :
  (∀ s, R s s) →
  (∀ p w, R (fs w) (fs (recurse p w).2)) →
  (∀ src w, R (fs w) (fs (convert src fmt dstdir overwrite w).2)) →
  ∀ child w, R (fs w) (fs (visit fmt dstdir overwrite recurse child w).2).
Proof.
  intros Hrefl Hrec Hconv child w. unfold visit.
  rewrite bind_run, Path_is_dir_run.
  destruct (fs_is_dir (fs w) child).
  - apply (Hrec child (logged w [IsDir child true])).
  - destruct (is_DLC_output child); [|apply Hrefl].
    rewrite bind_run. specialize (Hconv child (logged w [IsDir child false])).
    destruct (convert _ _ _ _ _) as [[e|r] w1]; [done |].
    by rewrite print_report.
Qed.

Lemma walk_fs (R : FS → FS → Prop) (fmt : string) (dstdir : option string)
    (overwrite : bool) :
  (∀ s, R s s) → (∀ a b c, R a b → R b c → R a c) →
  (∀ src w, R (fs w) (fs (convert src fmt dstdir overwrite w).2)) →
  ∀ depth current w,
    R (fs w) (fs (_recurse_single fmt dstdir overwrite depth current w).2).
Proof.
  intros Hrefl Htrans Hconv depth.
  induction depth as [|depth IH]; intros current w; cbn [_recurse_single];
    [apply Hrefl |].
  rewrite bind_run. unfold Path_iterdir at 1.
  rewrite bind_run. simpl. rewrite bind_run. unfold syscall at 1. simpl.
  destruct (os_listdir (fs w) current) as [e|names]; [apply Hrefl |]. simpl.
  apply (for_each_fs R _ Hrefl Htrans (visit_fs R _ _ _ _ Hrefl IH Hconv)
           (map (child current) names) (logged w [Iterdir current])).
Qed.

(** X10.  A walk only ever adds nodes or rewrites regular files whose name
    ends in [.csv]: every directory and every other file (the [.h5]
    sources among them) is still there, unchanged, when the walk ends,
    whether it returns or raises. *)
Theorem walk_spares (directory : option string) (fmt : string)
    (dstdir : option string) (overwrite : bool) (depth : nat) (w : World) :
  spares (fs w)
    (fs (convert_recursive directory fmt dstdir overwrite depth w).2).
Proof.
  unfold convert_recursive.
  apply (walk_fs spares fmt dstdir overwrite spares_refl spares_trans).
  intros src w0. destruct (convert src fmt dstdir overwrite w0) as [res w'] eqn:Hc.
  by apply convert_spares in Hc.
Qed.

Lemma walk_errno (s : FS) (cs cur : list string) (e : errno) :
  walk s cur cs = inl e → e = ENOENT ∨ e = ENOTDIR.
Proof.
  revert cur. induction cs as [|c cs IH]; intros cur; simpl; [done |].
  destruct (lookup_node s cur) as [[|?]|]; eauto; intros [= <-]; auto.
Qed.

(** X11.  When the directory to search is not a directory, the walk raises
    at once the error of the listing (no such file or directory, or not a
    directory when a regular file is in the way) without printing a line
    or touching the file system. *)
Theorem convert_recursive_not_a_directory (directory : option string)
    (fmt : string) (dstdir : option string) (overwrite : bool) (depth : nat)
    (w : World) :
  let top := match directory with
             | None => mkPath "" []
             | Some d => of_string d
             end in
  fs_is_dir (fs w) top = false →
  ∃ e, (e = ENOENT ∨ e = ENOTDIR)
       ∧ (fs_exists (fs w) top = true → e = ENOTDIR)
       ∧ convert_recursive directory fmt dstdir overwrite (S depth) w
         = (inl (OSError e top), mkWorld (fs w) (trace w ++ [Iterdir top])).
Proof.
  intros top Hnd. unfold convert_recursive. fold top. cbn [_recurse_single].
  rewrite bind_run. unfold Path_iterdir at 1.
  rewrite bind_run. simpl. rewrite bind_run. unfold syscall at 1. simpl.
  unfold os_listdir, fs_is_dir, fs_exists, stat in *.
  destruct (abspath (fs w) top) as [e|a] eqn:Ea.
  - exists e. split; [by apply walk_errno in Ea |]. by split.
  - destruct (lookup_node (fs w) a) as [[|?]|]; [done | |].
    + exists ENOTDIR. split; [by right |]. by split.
    + exists ENOENT. split; [by left |]. by split.
Qed.

Lemma probes_only_seq (w w1 w' : World) (res : Exc + unit) :
  probes_only w (inr tt) w1 → probes_only w1 res w' → probes_only w res w'.
Proof.
  intros (F1 & cs1 & T1 & P1 & U1 & _) (F2 & cs2 & T2 & P2 & U2 & K2).
  split; [congruence |]. exists (cs1 ++ cs2)%list.
  split; [by rewrite T2, T1, app_assoc |].
  split; [by apply Forall_app |]. split.
  - intros Hres. apply Forall_app. auto.
  - intros msg Hres. apply Exists_app. right. eauto.
Qed.

Lemma probes_only_after (w w' : World) (res : Exc + unit) (c : call) :
  walker_probe c = true → matched_probe c = false →
  probes_only (logged w [c]) res w' → probes_only w res w'.
Proof.
  intros Hp Hm (F & cs & T & P & U & K). split; [done |].
  exists (c :: cs). split; [rewrite T; simpl; by rewrite <- app_assoc |].
  split; [by constructor |]. split.
  - intros Hres. constructor; auto.
  - intros msg Hres. apply Exists_cons_tl. eauto.
Qed.

Lemma visit_unregistered (fmt : string) (dstdir : option string)
    (overwrite : bool) (recurse : Path → M unit) :
  FORMATS !! fmt = None →
  (∀ p w res w', recurse p w = (res, w') → probes_only w res w') →
  ∀ child w res w',
    visit fmt dstdir overwrite recurse child w = (res, w') →
    probes_only w res w'.
Proof.
  intros Hnone Hrec child w res w'. unfold visit.
  rewrite bind_run, Path_is_dir_run.
  destruct (fs_is_dir (fs w) child).
  - intros Hr. apply Hrec in Hr.
    by apply (probes_only_after _ _ _ (IsDir child true) eq_refl eq_refl Hr).
  - destruct (is_DLC_output child) eqn:Em.
    + rewrite bind_run. unfold convert. rewrite Hnone. intros [= <- <-].
      split; [done |]. exists [IsDir child false]. split; [done |].
      split; [by repeat constructor |]. split; [done |].
      intros msg _. apply Exists_cons_hd. simpl. exact Em.
    + intros [= <- <-]. split; [done |]. exists [IsDir child false].
      split; [done |]. split; [by repeat constructor |]. split; [|done].
      intros _. constructor; [exact Em | constructor].
Qed.

Lemma for_each_probes {A} (body : A → M unit) :
  (∀ x w res w', body x w = (res, w') → probes_only w res w') →
  ∀ xs w res w', for_each xs body w = (res, w') → probes_only w res w'.
Proof.
  intros Hbody xs. induction xs as [|x xs IH]; intros w res w'; cbn [for_each].
  - intros [= <- <-]. split; [done |]. exists []. rewrite app_nil_r.
    split; [done |]. split; [constructor |]. split; [constructor | done].
  - rewrite bind_run. destruct (body x w) as [[e|[]] w1] eqn:Hb.
    + intros [= <- <-]. by apply (Hbody x).
    + intros Hrest. apply Hbody in Hb. apply IH in Hrest.
      by apply (probes_only_seq _ w1).
Qed.

Lemma walk_probes (fmt : string) (dstdir : option string) (overwrite : bool) :
  FORMATS !! fmt = None →
  ∀ depth current w res w',
    _recurse_single fmt dstdir overwrite depth current w = (res, w') →
    probes_only w res w'.
Proof.
  intros Hnone depth.
  induction depth as [|depth IH]; intros current w res w'; cbn [_recurse_single].
  - intros [= <- <-]. split; [done |]. exists []. rewrite app_nil_r.
    split; [done |]. split; [constructor |]. split; [constructor | done].
  - rewrite bind_run. unfold Path_iterdir at 1.
    rewrite bind_run. simpl. rewrite bind_run. unfold syscall at 1. simpl.
    destruct (os_listdir (fs w) current) as [e|names]; simpl.
    + intros [= <- <-]. split; [done |]. exists [Iterdir current].
      split; [done |]. split; [by repeat constructor |]. split; done.
    + intros Hloop.
      apply (for_each_probes _ (visit_unregistered _ _ _ _ Hnone IH)) in Hloop.
      by apply (probes_only_after _ _ _ (Iterdir current) eq_refl eq_refl).
Qed.

(** X12.  With a format that is not registered the walk converts nothing:
    the file system stays as it is, nothing is printed and only [is_dir]
    and [iterdir] are called.  The configuration error is raised at the
    first file the classifier matches; a tree without such a file is
    walked to the end and the bad format goes unnoticed. *)
Theorem walk_unregistered (directory : option string) (fmt : string)
    (dstdir : option string) (overwrite : bool) (depth : nat) (w : World) :
  FORMATS !! fmt = None →
  probes_only w
    (convert_recursive directory fmt dstdir overwrite depth w).1
    (convert_recursive directory fmt dstdir overwrite depth w).2.
Proof.
  intros Hnone. unfold convert_recursive.
  destruct (_recurse_single _ _ _ _ _ _) as [res w'] eqn:Hw.
  by apply (walk_probes _ _ _ Hnone) in Hw.
Qed.

End ConverterFurther.

(* ===================================================================== *)
(** ** The theorems at work on a concrete tree *)
(* ===================================================================== *)

Lemma CSV_dstfile_witness :
  valid_name (name Demo.src) = true
  ∧ ∃ q, Conversion.dstfile (CSVConversion (ext := Demo.externals) Demo.src) = inr q
         ∧ parent q = parent Demo.src
         ∧ stem q = stem Demo.src
         ∧ suffix q = ".csv"
         ∧ name Demo.src = stem Demo.src +:+ suffix Demo.src
         ∧ name q = stem Demo.src +:+ ".csv".
Proof.
  split; [reflexivity |].
  apply (CSV_dstfile (ext := Demo.externals) Demo.src). reflexivity.
Defined.

Lemma convert_unregistered_witness :
  FORMATS (ext := Demo.externals) !! "xml" = None
  ∧ Demo.run_convert Demo.src "xml" None false Demo.w0
    = (inl (KeyError "file format not found: 'xml'"), Demo.w0).
Proof.
  split; [reflexivity |].
  apply (convert_unregistered (ext := Demo.externals) Demo.w0 Demo.src "xml" None false).
  reflexivity.
Defined.


Lemma convert_twice_witness :
  stat (fs Demo.w0) Demo.src = inr (File "HDFx,y")
  ∧ destination_ready (fs Demo.w0) Demo.dst
  ∧ ∃ w1 w2,
      Demo.run_convert Demo.src "csv" None false Demo.w0
      = (inr (Result.success Demo.dst), w1)
      ∧ Demo.run_convert Demo.src "csv" None false w1
        = (inr (Result.skipped Demo.dst "the converted file already exists"), w2)
      ∧ stat (fs w1) Demo.dst = inr (File "x,y")
      ∧ fs w2 = fs w1.
Proof.
  assert (R : destination_ready (fs Demo.w0) Demo.dst)
    by (split; [vm_compute; reflexivity | left; vm_compute; reflexivity]).
  split; [vm_compute; reflexivity |]. split; [exact R |].
  apply (convert_twice (ext := Demo.externals) Demo.w0 Demo.src "csv"
           CSVConversion None Demo.dst "HDFx,y" "x,y").
  - reflexivity.
  - reflexivity.
  - vm_compute; reflexivity.
  - reflexivity.
  - exact R.
Defined.

(** The same with a destination directory that has to be created. *)
Example convert_twice_new_directory :
  let '(r1, w1) := Demo.run_convert Demo.src "csv" (Some "out/csv") false Demo.w0 in
  let '(r2, w2) := Demo.run_convert Demo.src "csv" (Some "out/csv") false w1 in
  r1 = inr (Result.success (mkPath "" ["out"; "csv"; "m1DLC_resnet50_shuffle1.csv"]))
  ∧ r2 = inr (Result.skipped (mkPath "" ["out"; "csv"; "m1DLC_resnet50_shuffle1.csv"])
                "the converted file already exists")
  ∧ fs w2 = fs w1.
Proof. vm_compute. repeat split. Qed.

Lemma convert_into_dstdir_witness :
  FORMATS (ext := Demo.externals) !! "csv" = Some CSVConversion
  ∧ Conversion.dstfile (CSVConversion (ext := Demo.externals) Demo.src) = inr Demo.dst
  ∧ creatable (fs Demo.w0) (of_string "/out/deep") [] ["out"; "deep"]
  ∧ ∃ r w',
      Demo.run_convert Demo.src "csv" (Some "/out/deep") false Demo.w0 = (inr r, w')
      ∧ Result.dstfile r = "/out/deep/m1DLC_resnet50_shuffle1.csv"
      ∧ parent (truediv (of_string "/out/deep") (name Demo.dst)) = of_string "/out/deep"
      ∧ fs_exists (fs Demo.w0) (of_string "/out/deep") = false
      ∧ fs_is_dir (fs w') (mkPath "/" ["out"]) = true
      ∧ fs_is_dir (fs w') (mkPath "/" ["out"; "deep"]) = true.
Proof.
  split; [reflexivity |]. split; [reflexivity |].
  assert (Hcr : creatable (fs Demo.w0) (of_string "/out/deep") [] ["out"; "deep"]).
  { split; [reflexivity |]. split; [done |]. split.
    - change (parts (of_string "/out/deep")) with ["out"; "deep"].
      by repeat constructor.
    - split; [vm_compute; reflexivity |].
      intros j Hj. destruct j as [|[|[|j]]];
        [lia | vm_compute; reflexivity | vm_compute; reflexivity | simpl in Hj; lia]. }
  split; [exact Hcr |].
  destruct (convert_into_dstdir (ext := Demo.externals) Demo.w0 Demo.src "csv"
              CSVConversion "/out/deep" false Demo.dst eq_refl eq_refl)
    as (_ & _ & Hpar & r & w' & Hrun & Hdst & _ & Hmade).
  destruct (Hmade [] ["out"; "deep"] Hcr) as (Hmissing & _ & Hall).
  exists r, w'. split; [exact Hrun |]. split; [exact Hdst |].
  split; [exact Hpar |]. split; [exact Hmissing |]. split.
  - exact (Hall ["out"] ["deep"] eq_refl).
  - exact (Hall ["out"; "deep"] [] eq_refl).
Defined.

(** What the run of the witness above comes to. *)
Example convert_into_dstdir_run :
  let '(r, w') := Demo.run_convert Demo.src "csv" (Some "/out/deep") false Demo.w0 in
  r = inr (Result.success (mkPath "/" ["out"; "deep"; "m1DLC_resnet50_shuffle1.csv"]))
  ∧ fs_is_dir (fs w') (mkPath "/" ["out"]) = true
  ∧ fs_is_dir (fs w') (mkPath "/" ["out"; "deep"]) = true
  ∧ stat (fs w') (mkPath "/" ["out"; "deep"; "m1DLC_resnet50_shuffle1.csv"])
    = inr (File "x,y")
  ∧ fs_exists (fs w') Demo.dst = false.
Proof. vm_compute. repeat split. Qed.

(** C5, as stated, fails: [/plain.txt] is a regular file, so creating
    [/plain.txt/out] raises [NotADirectoryError]; [convert] does not raise
    it but returns the failure. *)
Lemma mkdir_failure_is_captured :
  let dir := mkPath "/" ["plain.txt"; "out"] in
  fs_exists (fs Demo.w0) dir = false
  ∧ mkdir_parents (root dir) (rev (parts dir)) false (fs Demo.w0)
    = (inl (OSError ENOTDIR dir), fs Demo.w0)
  ∧ (Demo.run_convert Demo.src "csv" (Some "/plain.txt/out") false Demo.w0).1
    = inr (Result.failed (child dir "m1DLC_resnet50_shuffle1.csv")
             "failed to convert: [Errno 20] Not a directory: /plain.txt/out")
  ∧ ¬ mkdir_failure_propagates (ext := Demo.externals).
Proof.
  split; [vm_compute; reflexivity |].
  split; [vm_compute; reflexivity |].
  split; [vm_compute; reflexivity |].
  intros P.
  specialize (P Demo.w0 Demo.src "csv" CSVConversion (Some "/plain.txt/out") false
                Demo.dst (OSError ENOTDIR (mkPath "/" ["plain.txt"; "out"]))
                (fs Demo.w0) eq_refl eq_refl).
  vm_compute in P. specialize (P eq_refl eq_refl). discriminate P.
Qed.

Lemma convert_captures_failures_witness :
  FORMATS (ext := Demo.externals) !! "csv" = Some CSVConversion
  ∧ Conversion.dstfile (CSVConversion (ext := Demo.externals) Demo.src) = inr Demo.dst
  ∧ let dstdir := Some "/plain.txt/out" in
    let dst := rebased dstdir Demo.dst in
    (∃ r w', Demo.run_convert Demo.src "csv" dstdir false Demo.w0 = (inr r, w'))
    ∧ (∀ e s,
         fs_exists (fs Demo.w0) (parent dst) = false →
         mkdir_parents (root (parent dst)) (rev (parts (parent dst))) false
           (fs Demo.w0) = (inl e, s) →
         Demo.run_convert Demo.src "csv" dstdir false Demo.w0
         = (inr (Result.failed dst ("failed to convert: " +:+ Demo.str e)),
            mkWorld s (trace Demo.w0 ++ [Exists (parent dst); Mkdir (parent dst);
                                         PrintExc e])))
    ∧ (∀ e w',
         fs_exists (fs Demo.w0) (parent dst) = true →
         fs_exists (fs Demo.w0) dst && negb false = false →
         load_and_write (ext := Demo.externals) (CSVConversion Demo.src) Demo.src dst
           (logged Demo.w0 [Exists (parent dst); Exists dst]) = (inl e, w') →
         Demo.run_convert Demo.src "csv" dstdir false Demo.w0
         = (inr (Result.failed dst ("failed to convert: " +:+ Demo.str e)),
            logged w' [PrintExc e]))
    ∧ (∀ recurse rest,
         fs_is_dir (fs Demo.w0) Demo.src = false →
         ∃ w', for_each (Demo.src :: rest)
                 (visit (ext := Demo.externals) "csv" dstdir false recurse) Demo.w0
               = for_each rest
                   (visit (ext := Demo.externals) "csv" dstdir false recurse) w').
Proof.
  split; [reflexivity |]. split; [reflexivity |].
  apply (convert_captures_failures (ext := Demo.externals) Demo.w0 Demo.src "csv"
           CSVConversion (Some "/plain.txt/out") false Demo.dst); reflexivity.
Defined.


(** The tree walk of the specification's example: [/data] holds one output
    that converts, one whose load fails and a file the classifier does not
    match; [/] also holds a plain file.  One line goes to standard output,
    one annotated line to standard error after the trace of the failure. *)
Example walk_prints :
  let '(r, w') := Demo.run_walk (Some "/") "csv" None false 10 Demo.w0 in
  r = inr tt
  ∧ filter (λ c, touches_files c = false) (trace w')
    = [PrintExc (LibraryError "not an HDF5 file");
       Print Stderr "***failed to convert: not an HDF5 file: m2DeepLabCut_shuffle2.h5";
       Print Stdout "m1DLC_resnet50_shuffle1.h5"].
Proof. vm_compute. split; reflexivity. Qed.

(* ===================================================================== *)
(** ** The further properties at work on the same tree *)
(* ===================================================================== *)

Lemma destination_never_matched_witness :
  Conversion.dstfile (CSVConversion (ext := Demo.externals) Demo.src) = inr Demo.dst
  ∧ is_DLC_output Demo.dst = false
  ∧ is_DLC_output (rebased (Some "/out") Demo.dst) = false.
Proof.
  split; [reflexivity |].
  apply (destination_never_matched (ext := Demo.externals) Demo.src Demo.dst
           (Some "/out")).
  reflexivity.
Defined.

Lemma convert_touches_only_destination_witness :
  lookup_node (fs Demo.w1) ["data"; "notes.txt"] = Some (File "hello")
  ∧ (lookup_node (fs (Demo.run_convert Demo.src "csv" None true Demo.w1).2)
       ["data"; "notes.txt"] = Some (File "hello")
     ∨ ∃ content d,
         File "hello" = File content
         ∧ Conversion.dstfile (CSVConversion (ext := Demo.externals) Demo.src) = inr d
         ∧ abspath (fs (Demo.run_convert Demo.src "csv" None true Demo.w1).2)
             (rebased None d) = inr ["data"; "notes.txt"]).
Proof.
  split; [vm_compute; reflexivity |].
  apply (convert_touches_only_destination (ext := Demo.externals) Demo.w1 Demo.src
           "csv" None true ["data"; "notes.txt"] (File "hello")).
  vm_compute; reflexivity.
Defined.

Lemma convert_skipped_iff_witness :
  Demo.run_convert Demo.src "csv" None false Demo.w1
  = (inr (Result.skipped Demo.dst "the converted file already exists"),
     (Demo.run_convert Demo.src "csv" None false Demo.w1).2)
  ∧ (Result.status (Result.skipped Demo.dst "the converted file already exists")
       = SKIPPED
     ↔ false = false ∧ fs_exists (fs Demo.w1) (rebased None Demo.dst) = true).
Proof.
  assert (E : Demo.run_convert Demo.src "csv" None false Demo.w1
              = (inr (Result.skipped Demo.dst "the converted file already exists"),
                 (Demo.run_convert Demo.src "csv" None false Demo.w1).2))
    by (vm_compute; reflexivity).
  split; [exact E |].
  apply (convert_skipped_iff (ext := Demo.externals) Demo.w1 _ Demo.src "csv"
           CSVConversion None false Demo.dst _ eq_refl eq_refl E).
Defined.

Lemma convert_result_shape_witness :
  Demo.run_convert Demo.bad "csv" None false Demo.w0
  = (inr (Result.failed Demo.bad_dst "failed to convert: not an HDF5 file"),
     (Demo.run_convert Demo.bad "csv" None false Demo.w0).2)
  ∧ ∃ d, Conversion.dstfile (CSVConversion (ext := Demo.externals) Demo.bad) = inr d
         ∧ Result.dstfile
             (Result.failed Demo.bad_dst "failed to convert: not an HDF5 file")
           = to_string (rebased None d)
         ∧ ∃ e, Some "failed to convert: not an HDF5 file"
                = Some ("failed to convert: " +:+ Demo.str e).
Proof.
  assert (E : Demo.run_convert Demo.bad "csv" None false Demo.w0
              = (inr (Result.failed Demo.bad_dst "failed to convert: not an HDF5 file"),
                 (Demo.run_convert Demo.bad "csv" None false Demo.w0).2))
    by (vm_compute; reflexivity).
  split; [exact E |].
  apply (convert_result_shape (ext := Demo.externals) Demo.w0 _ Demo.bad "csv"
           None false _ E).
Defined.

Lemma convert_load_failure_witness :
  fs_exists (fs Demo.w0) (parent Demo.bad_dst) = true
  ∧ loaded (ext := Demo.externals) (fs Demo.w0) Demo.bad
    = inl (LibraryError "not an HDF5 file")
  ∧ Demo.run_convert Demo.bad "csv" None false Demo.w0
    = (inr (Result.failed Demo.bad_dst
              ("failed to convert: "
               +:+ Demo.str (LibraryError "not an HDF5 file"))),
       mkWorld (fs Demo.w0)
         [Exists (parent Demo.bad_dst); Exists Demo.bad_dst; ReadHdf Demo.bad;
          PrintExc (LibraryError "not an HDF5 file")]).
Proof.
  split; [vm_compute; reflexivity |]. split; [vm_compute; reflexivity |].
  apply (convert_load_failure (ext := Demo.externals) Demo.w0 Demo.bad "csv"
           CSVConversion None false Demo.bad_dst (LibraryError "not an HDF5 file")).
  - reflexivity.
  - reflexivity.
  - vm_compute; reflexivity.
  - vm_compute; reflexivity.
  - vm_compute; reflexivity.
Defined.

Lemma convert_load_failure_leaves_directory_witness :
  let dst := rebased (Some "/out/csv") Demo.bad_dst in
  let s1 := (mkdir_parents "/" ["csv"; "out"] false (fs Demo.w0)).2 in
  fs_exists (fs Demo.w0) (parent dst) = false
  ∧ mkdir_parents (root (parent dst)) (rev (parts (parent dst))) false (fs Demo.w0)
    = (inr tt, s1)
  ∧ Demo.run_convert Demo.bad "csv" (Some "/out/csv") false Demo.w0
    = (inr (Result.failed dst
              ("failed to convert: "
               +:+ Demo.str (LibraryError "not an HDF5 file"))),
       mkWorld s1
         [Exists (parent dst); Mkdir (parent dst); ReadHdf Demo.bad;
          PrintExc (LibraryError "not an HDF5 file")])
  ∧ fs_is_dir s1 (parent dst) = true
  ∧ ∀ k c, lookup_node s1 k = Some (File c) →
           lookup_node (fs Demo.w0) k = Some (File c).
Proof.
  intros dst s1.
  split; [vm_compute; reflexivity |]. split; [vm_compute; reflexivity |].
  apply (convert_load_failure_leaves_directory (ext := Demo.externals) Demo.w0
           Demo.bad "csv" CSVConversion (Some "/out/csv") false Demo.bad_dst
           "garbage" (LibraryError "not an HDF5 file") s1).
  - reflexivity.
  - reflexivity.
  - vm_compute; reflexivity.
  - vm_compute; reflexivity.
  - vm_compute; reflexivity.
  - reflexivity.
Defined.

Lemma convert_overwrite_twice_witness :
  fs_exists (fs Demo.w1) Demo.dst = true
  ∧ abspath (fs Demo.w1) Demo.src ≠ abspath (fs Demo.w1) Demo.dst
  ∧ ∃ w1 w2,
      Demo.run_convert Demo.src "csv" None true Demo.w1
      = (inr (Result.success Demo.dst), w1)
      ∧ Demo.run_convert Demo.src "csv" None true w1
        = (inr (Result.success Demo.dst), w2)
      ∧ fs w2 = fs w1
      ∧ stat (fs w1) Demo.dst = inr (File "x,y")
      ∧ stat (fs w1) Demo.src = inr (File "HDFx,y").
Proof.
  assert (Hne : abspath (fs Demo.w1) Demo.src ≠ abspath (fs Demo.w1) Demo.dst)
    by (vm_compute; discriminate).
  split; [vm_compute; reflexivity |]. split; [exact Hne |].
  apply (convert_overwrite_twice (ext := Demo.externals) Demo.w1 Demo.src "csv"
           CSVConversion None Demo.dst "HDFx,y" "x,y").
  - reflexivity.
  - reflexivity.
  - vm_compute; reflexivity.
  - reflexivity.
  - vm_compute; reflexivity.
  - vm_compute; reflexivity.
  - exact Hne.
Defined.

Lemma convert_dstdir_is_a_file_witness :
  let dst := rebased (Some "/plain.txt") Demo.dst in
  stat (fs Demo.w0) (of_string "/plain.txt") = inr (File "text")
  ∧ loaded (ext := Demo.externals) (fs Demo.w0) Demo.src = inr "x,y"
  ∧ Demo.run_convert Demo.src "csv" (Some "/plain.txt") true Demo.w0
    = (inr (Result.failed dst
              "failed to convert: Cannot save file into a non-existent directory: '/plain.txt'"),
       mkWorld (fs Demo.w0)
         [Exists (of_string "/plain.txt"); Exists dst; ReadHdf Demo.src;
          ToCsv dst;
          PrintExc (PlainOSError
                      "Cannot save file into a non-existent directory: '/plain.txt'")]).
Proof.
  intros dst.
  split; [vm_compute; reflexivity |]. split; [vm_compute; reflexivity |].
  apply (convert_dstdir_is_a_file (ext := Demo.externals) Demo.w0 Demo.src "csv"
           CSVConversion "/plain.txt" true Demo.dst "text" "x,y").
  - reflexivity.
  - reflexivity.
  - vm_compute; reflexivity.
  - vm_compute; reflexivity.
Defined.

Lemma convert_same_stem_collides_witness :
  let r1 := Result.success (rebased (Some "/out") Demo.dst) in
  let w1 := (Demo.run_convert Demo.src "csv" (Some "/out") false Demo.w0).2 in
  stem Demo.src = stem Demo.twin
  ∧ Demo.run_convert Demo.src "csv" (Some "/out") false Demo.w0 = (inr r1, w1)
  ∧ rebased (Some "/out") Demo.twin_dst = rebased (Some "/out") Demo.dst
  ∧ Demo.run_convert Demo.twin "csv" (Some "/out") false w1
    = (inr (Result.skipped (rebased (Some "/out") Demo.dst)
              "the converted file already exists"),
       mkWorld (fs w1)
         (trace w1 ++ [Exists (parent (rebased (Some "/out") Demo.dst));
                       Exists (rebased (Some "/out") Demo.dst)])).
Proof.
  intros r1 w1.
  assert (E : Demo.run_convert Demo.src "csv" (Some "/out") false Demo.w0
              = (inr r1, w1)) by (vm_compute; reflexivity).
  split; [reflexivity |]. split; [exact E |].
  apply (convert_same_stem_collides (ext := Demo.externals) Demo.w0 w1 Demo.src
           Demo.twin "csv" CSVConversion "/out" Demo.dst Demo.twin_dst r1).
  - reflexivity.
  - reflexivity.
  - reflexivity.
  - reflexivity.
  - exact E.
  - reflexivity.
Defined.

Lemma convert_recursive_not_a_directory_witness :
  fs_is_dir (fs Demo.w0) (of_string "/plain.txt") = false
  ∧ ∃ e, (e = ENOENT ∨ e = ENOTDIR)
         ∧ (fs_exists (fs Demo.w0) (of_string "/plain.txt") = true → e = ENOTDIR)
         ∧ Demo.run_walk (Some "/plain.txt") "csv" None false 1 Demo.w0
           = (inl (OSError e (of_string "/plain.txt")),
              mkWorld (fs Demo.w0) [Iterdir (of_string "/plain.txt")]).
Proof.
  split; [vm_compute; reflexivity |].
  apply (convert_recursive_not_a_directory (ext := Demo.externals)
           (Some "/plain.txt") "csv" None false 0 Demo.w0).
  vm_compute; reflexivity.
Defined.

Lemma walk_unregistered_witness :
  FORMATS (ext := Demo.externals) !! "xml" = None
  ∧ probes_only Demo.w0
      (Demo.run_walk (Some "/") "xml" None false 10 Demo.w0).1
      (Demo.run_walk (Some "/") "xml" None false 10 Demo.w0).2.
Proof.
  split; [reflexivity |].
  apply (walk_unregistered (ext := Demo.externals) (Some "/") "xml" None false 10
           Demo.w0).
  reflexivity.
Defined.

(** What that run comes to: the error is raised at the first match. *)
Example walk_unregistered_run :
  let '(r, w') := Demo.run_walk (Some "/") "xml" None false 10 Demo.w0 in
  r = inl (KeyError "file format not found: 'xml'")
  ∧ fs w' = fs Demo.w0
  ∧ List.last (trace w') (Iterdir Demo.src) = IsDir Demo.bad false.
Proof. vm_compute. repeat split. Qed.

Lemma walk_balanced_witness :
  let w' := (_recurse_single (ext := Demo.externals) "csv" None false 10
               (mkPath "/" []) Demo.w0).2 in
  _recurse_single (ext := Demo.externals) "csv" None false 10 (mkPath "/" [])
    Demo.w0 = (inr tt, w')
  ∧ ∃ cs, trace w' = (trace Demo.w0 ++ cs)%list ∧ balanced cs.
Proof.
  intros w'.
  assert (E : _recurse_single (ext := Demo.externals) "csv" None false 10
                (mkPath "/" []) Demo.w0 = (inr tt, w'))
    by (vm_compute; reflexivity).
  split; [exact E |].
  exact (walk_balanced (ext := Demo.externals) "csv" None false 10 (mkPath "/" [])
           Demo.w0 w' E).
Defined.

Lemma result_dstfile_round_trip_witness :
  wf_path Demo.src
  ∧ Demo.run_convert Demo.src "csv" (Some "out//csv/") false Demo.w0
    = (inr (Result.success (mkPath "" ["out"; "csv"; "m1DLC_resnet50_shuffle1.csv"])),
       (Demo.run_convert Demo.src "csv" (Some "out//csv/") false Demo.w0).2)
  ∧ ∃ d, Conversion.dstfile (CSVConversion (ext := Demo.externals) Demo.src) = inr d
         ∧ of_string "out/csv/m1DLC_resnet50_shuffle1.csv"
           = rebased (Some "out//csv/") d.
Proof.
  assert (Hwf : wf_path Demo.src) by (split; [reflexivity | by repeat constructor]).
  assert (E : Demo.run_convert Demo.src "csv" (Some "out//csv/") false Demo.w0
              = (inr (Result.success
                        (mkPath "" ["out"; "csv"; "m1DLC_resnet50_shuffle1.csv"])),
                 (Demo.run_convert Demo.src "csv" (Some "out//csv/") false Demo.w0).2))
    by (vm_compute; reflexivity).
  split; [exact Hwf |]. split; [exact E |].
  exact (result_dstfile_round_trip (ext := Demo.externals) Demo.w0 _ Demo.src "csv"
           (Some "out//csv/") false _ Hwf E).
Defined.
